(** * ManualSort: a drag-to-reorder list component

    A shallow embedding of the [ManualSort] custom element
    (an [<ol is="manual-sort">] whose children the user reorders by
    dragging) and the properties of its hit test, preview renderer,
    visual-order computation, reset and drag-handle set-up.

    Conventions of the embedding.
    - Viewport coordinates ([DOMRect] fields, [clientX], [clientY]) are
      integers (CSS pixels), type [Z].  The code holds them as doubles:
      comparisons agree on integers; the subtraction and the printing of
      a number agree for the coordinates [safe_coordinate] admits, and
      every statement about a computed translation assumes those.
    - A child element is referred to by its position in [this.children];
      no operation embedded here adds, removes or moves a child, so the
      position is a stable reference.  The children themselves live in
      one store, [children], that every reference points into.
    - An inline style declaration block is a finite map from the property
      name given to [setProperty] to the value given to it, kept as
      written: the shorthand [transition] is one entry.  How a browser
      combines it with its longhands ([transition-duration], ...) is not
      modelled, so the statements treat the names that start with
      [transition] as one family and assert nothing about how its members
      affect each other.
    - The browser's layout is a parameter: [getBoundingClientRect] maps
      the current state of the children (styles included) and a child
      reference to a box.
    - A JavaScript exception is a [Throw] completion; the state reached
      when it is raised is kept. *)

From Stdlib Require Import ZArith Lia Ascii String Sorting.Sorted Sorting.Permutation.
From stdpp Require Import base decidable option list strings gmap pretty.

Local Open Scope Z_scope.

(** ** Data model *)

Record DOMRect := mkDOMRect {
  left : Z;
  top : Z;
  right : Z;
  bottom : Z
}.

(** A descendant element of a sortable child: what the component reads
    and writes of it. *)
Record SubElement := mkSubElement {
  tagName : string;
  classList : list string;
  sub_draggable : bool
}.

(** A sortable child: its inline style, its [draggable] property and its
    descendants in document order. *)
Record Sortable := mkSortable {
  style : gmap string string;
  draggable : bool;
  descendants : list SubElement
}.

(** One entry of [sortablesAndBounds]: [{child, bounds}]. *)
Record BoundsAndChild := mkBoundsAndChild {
  bounds : DOMRect;
  child : nat
}.

(** [new CustomEvent(type, {detail: {children}})]. *)
Record CustomEvent := mkCustomEvent {
  event_type : string;
  detail_children : list nat
}.

(** The part of a [DragEvent] the handlers use. [target_child] is the
    child the handler resolves from [e.target] ([None] when that element
    is not one of the children). *)
Record DragEvent := mkDragEvent {
  target_child : option nat;
  clientX : Z;
  clientY : Z;
  defaultPrevented : bool
}.

(** The component instance.  [dispatched] is the log of events given to
    [dispatchEvent], oldest first. *)
Record ManualSort := mkManualSort {
  attributes : gmap string string;
  children : list Sortable;
  listening : bool;
  draggingItemIndex : option Z;
  dropIndex : option Z;
  sortablesAndBounds : list BoundsAndChild;
  dispatched : list CustomEvent
}.

Inductive Completion :=
| Normal
| Throw (error : string).

Definition TypeError : string := "TypeError".

(** ** Field updates *)

Definition set_children (c : list Sortable) (s : ManualSort) : ManualSort :=
  mkManualSort (attributes s) c (listening s) (draggingItemIndex s)
    (dropIndex s) (sortablesAndBounds s) (dispatched s).

Definition set_draggingItemIndex (d : option Z) (s : ManualSort) : ManualSort :=
  mkManualSort (attributes s) (children s) (listening s) d
    (dropIndex s) (sortablesAndBounds s) (dispatched s).

Definition set_dropIndex (d : option Z) (s : ManualSort) : ManualSort :=
  mkManualSort (attributes s) (children s) (listening s) (draggingItemIndex s)
    d (sortablesAndBounds s) (dispatched s).

Definition set_sortablesAndBounds (b : list BoundsAndChild) (s : ManualSort) : ManualSort :=
  mkManualSort (attributes s) (children s) (listening s) (draggingItemIndex s)
    (dropIndex s) b (dispatched s).

Definition set_style (st : gmap string string) (el : Sortable) : Sortable :=
  mkSortable st (draggable el) (descendants el).

Definition set_draggable (b : bool) (el : Sortable) : Sortable :=
  mkSortable (style el) b (descendants el).

Definition set_descendants (d : list SubElement) (el : Sortable) : Sortable :=
  mkSortable (style el) (draggable el) d.

(** [new ManualSort()]: the constructor leaves both indices undefined. *)
Definition constructor (attrs : gmap string string) (kids : list Sortable) : ManualSort :=
  mkManualSort attrs kids false None None [] [].

(** ** JavaScript library functions *)

(** [arr[i]] for an integer [i]: [undefined] outside the array. *)
Definition at_index {A} (l : list A) (i : Z) : option A :=
  if i <? 0 then None else l !! Z.to_nat i.

(** [arr.findIndex(p)]: scan from the front, [-1] when nothing matches. *)
Fixpoint findIndex_from {A} (p : A → bool) (k : Z) (l : list A) : Z :=
  match l with
  | [] => -1
  | x :: l' => if p x then k else findIndex_from p (k + 1) l'
  end.

Definition findIndex {A} (p : A → bool) (l : list A) : Z := findIndex_from p 0 l.

(** [arr.indexOf(x)] on child references. *)
Definition indexOf (x : nat) (l : list nat) : Z := findIndex (Nat.eqb x) l.

(** [arr.sort(cmp)]: the language requires a stable sort, so for a
    consistent comparator the result is determined; it is computed here by
    insertion, an element going in front of the first one it does not
    follow. *)
Fixpoint sort_insert {A} (cmp : A → A → Z) (x : A) (l : list A) : list A :=
  match l with
  | [] => [x]
  | y :: l' => if cmp x y <=? 0 then x :: y :: l' else y :: sort_insert cmp x l'
  end.

Fixpoint sort {A} (cmp : A → A → Z) (l : list A) : list A :=
  match l with
  | [] => []
  | x :: l' => sort_insert cmp x (sort cmp l')
  end.

(** [n.toString()] for an integer: the plain decimal digits, which is
    what the code prints for every integer below 10^21 in size. *)
Definition toString (n : Z) : string := pretty n.

(** [`${v}`] for a variable that may still be [undefined]. *)
Definition template (v : option Z) : string :=
  match v with
  | Some n => toString n
  | None => "undefined"
  end.

(** [style.setProperty(name, value)]: an empty value removes the
    declaration. *)
Definition setProperty (name value : string) (st : gmap string string) : gmap string string :=
  if decide (value = EmptyString) then delete name st else <[name := value]> st.

(** [el.style.setProperty(name, value)] on the child behind a reference. *)
Definition style_setProperty (ref : nat) (name value : string) (els : list Sortable) : list Sortable :=
  alter (fun el => set_style (setProperty name value (style el)) el) ref els.

(** [getAttribute(name)]: [None] is [null]. *)
Definition getAttribute (s : ManualSort) (name : string) : option string :=
  attributes s !! name.

(** ** Configuration getters *)

(** [!!v] for a string-or-null value. *)
Definition truthy (v : option string) : bool :=
  match v with
  | None => false
  | Some EmptyString => false
  | Some _ => true
  end.

(** [v !== lit] and [v === lit] for a string-or-null value and a string
    literal. *)
Definition strict_eq (v : option string) (lit : string) : bool :=
  bool_decide (v = Some lit).

Definition useDragHandles (s : ManualSort) : bool :=
  truthy (getAttribute s "drag-handles") &&
  negb (strict_eq (getAttribute s "drag-handles") "false").

Definition createDragHandles (s : ManualSort) : bool :=
  strict_eq (getAttribute s "drag-handles") "create".

(** [get sortables]: a fresh array of the children, in DOM order. *)
Definition sortables (s : ManualSort) : list nat :=
  seq 0 (length (children s)).

(** ** Hit test *)

Definition findSortableIndex (s : ManualSort) (mouseX mouseY : Z) : Z :=
  findIndex (fun child =>
      (mouseX >=? left (bounds child)) &&
      (mouseX <=? right (bounds child)) &&
      (mouseY >=? top (bounds child)) &&
      (mouseY <=? bottom (bounds child)))
    (sortablesAndBounds s).

(** ** Preview renderer *)

(** The three values [opacity] takes in [previewNewPositions], and what
    [opacity.toString()] gives for each. *)
Inductive Opacity :=
| opacity_1
| opacity_01
| opacity_07.

Definition opacity_toString (o : Opacity) : string :=
  match o with
  | opacity_1 => "1"
  | opacity_01 => "0.1"
  | opacity_07 => "0.7"
  end.

Definition translate (translateX translateY : option Z) : string :=
  "translate(" +:+ template translateX +:+ "px, " +:+ template translateY +:+ "px)".

(** The branch of the loop body that computes [translateX], [translateY]
    and [opacity] for entry [i]; [None] when reading [.bounds] of an
    [undefined] array element raises a [TypeError].  The differences are
    taken in [Z]; they are the code's double differences for coordinates
    that satisfy [safe_coordinate], defined below. *)
Definition previewEntry (sab : list BoundsAndChild)
    (dragging newIndex startIndex endIndex i : Z) (entry : BoundsAndChild)
    : option (option Z * option Z * Opacity) :=
  let left_ := left (bounds entry) in
  let top_ := top (bounds entry) in
  if i =? dragging then
    match at_index sab newIndex with
    | None => None
    | Some to =>
        Some (Some (left (bounds to) - left_), Some (top (bounds to) - top_), opacity_01)
    end
  else if (i <? startIndex) || (i >? endIndex) then
    Some (Some 0, Some 0, opacity_07)
  else if i <? dragging then
    match at_index sab (i + 1) with
    | None => None
    | Some to =>
        Some (Some (left (bounds to) - left_), Some (top (bounds to) - top_), opacity_1)
    end
  else if i >? dragging then
    match at_index sab (i - 1) with
    | None => None
    | Some to =>
        Some (Some (left (bounds to) - left_), Some (top (bounds to) - top_), opacity_1)
    end
  else Some (None, None, opacity_1).

(** The three [setProperty] calls that end the loop body. *)
Definition previewWrite (entry : BoundsAndChild)
    (v : option Z * option Z * Opacity) (els : list Sortable) : list Sortable :=
  let '(translateX, translateY, opacity) := v in
  style_setProperty (child entry) "opacity" (opacity_toString opacity)
    (style_setProperty (child entry) "transform" (translate translateX translateY)
      (style_setProperty (child entry) "transition" "transform 100ms" els)).

(** The [for] loop from index [i] on; [rest] is the part of the snapshot
    not yet visited. *)
Fixpoint previewLoop (sab : list BoundsAndChild)
    (dragging newIndex startIndex endIndex i : Z)
    (rest : list BoundsAndChild) (els : list Sortable) : list Sortable * Completion :=
  match rest with
  | [] => (els, Normal)
  | entry :: rest' =>
      match previewEntry sab dragging newIndex startIndex endIndex i entry with
      | None => (els, Throw TypeError)
      | Some v =>
          previewLoop sab dragging newIndex startIndex endIndex (i + 1) rest'
            (previewWrite entry v els)
      end
  end.

Definition previewNewPositions (s : ManualSort) (newIndex : Z) : ManualSort * Completion :=
  match draggingItemIndex s with
  | None => (s, Normal)
  | Some dragging =>
      if newIndex =? -1 then (s, Normal)
      else
        let startIndex := Z.min dragging newIndex in
        let endIndex := Z.max dragging newIndex in
        let '(els, c) :=
          previewLoop (sortablesAndBounds s) dragging newIndex startIndex endIndex 0
            (sortablesAndBounds s) (children s) in
        (set_children els s, c)
  end.

(** ** Gesture-move handler *)

Definition preventDefault (e : DragEvent) : DragEvent :=
  mkDragEvent (target_child e) (clientX e) (clientY e) true.

(** [this.dropIndex == newIndex]: [undefined] equals no number. *)
Definition loose_eq (a : option Z) (b : Z) : bool :=
  match a with
  | None => false
  | Some a' => a' =? b
  end.

Definition handleDragover (s : ManualSort) (e : DragEvent)
    : ManualSort * DragEvent * Completion :=
  if bool_decide (draggingItemIndex s = Some (-1)) then (s, e, Normal)
  else
    let e' := preventDefault e in
    let newIndex := findSortableIndex s (clientX e) (clientY e) in
    if loose_eq (dropIndex s) newIndex then (s, e', Normal)
    else
      match previewNewPositions s newIndex with
      | (s', Throw err) => (s', e', Throw err)
      | (s', Normal) => (set_dropIndex (Some newIndex) s', e', Normal)
      end.

(** ** Drag handles *)

Definition has_class (cls : string) (el : SubElement) : Prop := cls ∈ classList el.

#[global] Instance has_class_dec cls el : Decision (has_class cls el).
Proof. unfold has_class. apply _. Defined.

(** [child.querySelector('.' + cls)]: the first descendant in document
    order that carries the class, with its position. *)
Definition querySelector (cls : string) (el : Sortable) : option (nat * SubElement) :=
  list_find (has_class cls) (descendants el).

(** [document.createElement('div')] followed by [classList.add(cls)]. *)
Definition createElement_with_class (tag cls : string) : SubElement :=
  mkSubElement tag [cls] false.

(** [child.prepend(node)]: the node becomes the first child, hence the
    first descendant in document order. *)
Definition prepend (node : SubElement) (el : Sortable) : Sortable :=
  set_descendants (node :: descendants el) el.

Definition set_sub_draggable (b : bool) (el : SubElement) : SubElement :=
  mkSubElement (tagName el) (classList el) b.

Definition makeSortableDraggable (s : ManualSort) (el : Sortable) : Sortable * Completion :=
  let el1 :=
    if createDragHandles s && bool_decide (querySelector "drag-handle" el = None)
    then prepend (createElement_with_class "div" "drag-handle") el
    else el in
  if useDragHandles s then
    match querySelector "drag-handle" el1 with
    | None => (el1, Throw TypeError)
    | Some (k, _) =>
        (set_descendants (alter (set_sub_draggable true) k (descendants el1)) el1, Normal)
    end
  else (set_draggable true el1, Normal).

(** [this.sortables.forEach(child => this.makeSortableDraggable(child))]:
    an exception leaves the remaining children untouched. *)
Fixpoint forEach_makeSortableDraggable (s : ManualSort) (els : list Sortable)
    : list Sortable * Completion :=
  match els with
  | [] => ([], Normal)
  | el :: rest =>
      match makeSortableDraggable s el with
      | (el', Throw err) => (el' :: rest, Throw err)
      | (el', Normal) =>
          let '(rest', c) := forEach_makeSortableDraggable s rest in
          (el' :: rest', c)
      end
  end.

Definition makeAllSortablesDraggable (s : ManualSort) : ManualSort * Completion :=
  let '(els, c) := forEach_makeSortableDraggable s (children s) in
  (set_children els s, c).

(** ** Operations that read the layout *)

Section Layout.

Variable getBoundingClientRect : list Sortable → nat → DOMRect.

(** The comparator given to [sort] in [sortablesInVisualOrder]. *)
Definition compareBounds (aBounds bBounds : DOMRect) : Z :=
  if top aBounds <? top bBounds then -1
  else if top aBounds >? top bBounds then 1
  else if left aBounds <? left bBounds then -1
  else if left aBounds >? left bBounds then 1
  else 0.

Definition sortablesInVisualOrder (s : ManualSort) : list nat :=
  sort (fun a b =>
      let aBounds := getBoundingClientRect (children s) a in
      let bBounds := getBoundingClientRect (children s) b in
      compareBounds aBounds bBounds)
    (sortables s).

(** Gesture start, from the child the handler has resolved: the writes
    of the dragged index and of the snapshot.  The drag-image and
    drop-effect calls on [e.dataTransfer] touch nothing the component
    reads back.  [handleDragstart_event], below, adds the resolution of
    the child from the event's target and the exceptions of the handler. *)
Definition handleDragstart (s : ManualSort) (e : DragEvent) : ManualSort :=
  let index :=
    match target_child e with
    | None => -1
    | Some c => indexOf c (sortablesInVisualOrder s)
    end in
  set_sortablesAndBounds
    (map (fun c => mkBoundsAndChild (getBoundingClientRect (children s) c) c)
       (sortablesInVisualOrder s))
    (set_draggingItemIndex (Some index) s).

(** The callback of the [forEach] in [resetPreviewPositions]. *)
Definition resetChild (i ref : nat) (els : list Sortable) : list Sortable :=
  style_setProperty ref "order" (toString (Z.of_nat i))
    (style_setProperty ref "opacity" EmptyString
      (style_setProperty ref "transform" EmptyString
        (style_setProperty ref "transition-duration" "0ms" els))).

(** [arr.forEach((child, i) => ...)] from index [i] on. *)
Fixpoint forEach_resetChild (i : nat) (arr : list nat) (els : list Sortable) : list Sortable :=
  match arr with
  | [] => els
  | ref :: arr' => forEach_resetChild (S i) arr' (resetChild i ref els)
  end.

Definition resetPreviewPositions (s : ManualSort) : ManualSort :=
  set_children (forEach_resetChild 0 (sortablesInVisualOrder s) (children s)) s.

(** [this.dispatchEvent(ev)]: the event is appended to the log; what its
    listeners do is outside the component. *)
Definition dispatchEvent (ev : CustomEvent) (s : ManualSort) : ManualSort :=
  mkManualSort (attributes s) (children s) (listening s) (draggingItemIndex s)
    (dropIndex s) (sortablesAndBounds s) (dispatched s ++ [ev]).

(** Gesture end. *)
Definition handleDragend (s : ManualSort) (e : DragEvent) : ManualSort :=
  if bool_decide (draggingItemIndex s = Some (-1)) then s
  else
    resetPreviewPositions
      (dispatchEvent (mkCustomEvent "sort" (sortablesInVisualOrder s)) s).

End Layout.

(** ** Two layouts to run the component on

    Both place the children in one column of boxes 100 wide and 20 high
    and move each box by the [translate(..)] of its [transform]; the
    block layout stacks them in DOM order, the flex column stacks them by
    their [order] property (DOM order among equals). *)

Definition digit_of (a : ascii) : option Z :=
  let n := nat_of_ascii a in
  if ((48 <=? n) && (n <=? 57))%nat then Some (Z.of_nat (n - 48)) else None.

Fixpoint parse_digits (acc : Z) (v : string) : option Z :=
  match v with
  | EmptyString => Some acc
  | String a v' =>
      match digit_of a with
      | None => None
      | Some d => parse_digits (10 * acc + d) v'
      end
  end.

Definition parse_int (v : string) : option Z :=
  match v with
  | EmptyString => None
  | String "-" v' => Z.opp <$> parse_digits 0 v'
  | _ => parse_digits 0 v
  end.

Fixpoint strip_prefix (p v : string) : option string :=
  match p with
  | EmptyString => Some v
  | String a p' =>
      match v with
      | String b v' => if Ascii.eqb a b then strip_prefix p' v' else None
      | EmptyString => None
      end
  end.

Fixpoint split_on (sep v : string) : option (string * string) :=
  match strip_prefix sep v with
  | Some r => Some (EmptyString, r)
  | None =>
      match v with
      | EmptyString => None
      | String a v' =>
          match split_on sep v' with
          | Some (l, r) => Some (String a l, r)
          | None => None
          end
      end
  end.

Definition parse_translate (v : string) : option (Z * Z) :=
  r ← strip_prefix "translate(" v;
  '(x, r') ← split_on "px, " r;
  '(y, _) ← split_on "px)" r';
  x' ← parse_int x;
  y' ← parse_int y;
  Some (x', y').

(** The offset a child's [transform] moves its box by. *)
Definition translation_of (el : Sortable) : Z * Z :=
  default (0, 0) (style el !! "transform" ≫= parse_translate).

(** The used value of [order]; the initial value is 0. *)
Definition order_of (el : Sortable) : Z :=
  default 0 (style el !! "order" ≫= parse_int).

Definition box_at (slot : Z) (offset : Z * Z) : DOMRect :=
  mkDOMRect (offset.1) (20 * slot + offset.2) (100 + offset.1) (20 * slot + 19 + offset.2).

Definition block_layout (els : list Sortable) (ref : nat) : DOMRect :=
  match els !! ref with
  | None => mkDOMRect 0 0 0 0
  | Some el => box_at (Z.of_nat ref) (translation_of el)
  end.

(** The number of children laid out before child [ref] in a flex column. *)
Definition flex_slot (els : list Sortable) (ref : nat) (el : Sortable) : nat :=
  length (filter (fun p : nat * Sortable =>
                    order_of p.2 < order_of el ∨
                    (order_of p.2 = order_of el ∧ (p.1 < ref)%nat))
            (imap pair els)).

Definition flex_column_layout (els : list Sortable) (ref : nat) : DOMRect :=
  match els !! ref with
  | None => mkDOMRect 0 0 0 0
  | Some el => box_at (Z.of_nat (flex_slot els ref el)) (translation_of el)
  end.

(** A list item as the page delivers it: no inline style, not draggable,
    no descendants. *)
Definition li : Sortable := mkSortable ∅ false [].

(** A list item with a caller-provided handle after a label. *)
Definition li_with_handle : Sortable :=
  mkSortable ∅ false
    [mkSubElement "span" ["label"] false; mkSubElement "div" ["drag-handle"] false].

Definition drag_at (x y : Z) : DragEvent := mkDragEvent None x y false.
Definition drag_of (ref : nat) : DragEvent := mkDragEvent (Some ref) 0 0 false.

(** [<ol is="manual-sort">] with four items, and the same list after a
    gesture that started on the third item. *)
Definition list4 : ManualSort := constructor ∅ [li; li; li; li].
Definition list4_dragging : ManualSort := handleDragstart block_layout list4 (drag_of 2).

(** The same list once the pointer has moved into the first item's box. *)
Definition list4_previewed : ManualSort :=
  (handleDragover list4_dragging (drag_at 5 5)).1.1.

(** Lists of two items under the values of [drag-handles]. *)
Definition list2_create : ManualSort :=
  constructor {[ "drag-handles" := "create" ]} [li; li].
Definition list2_yes : ManualSort :=
  constructor {[ "drag-handles" := "yes" ]} [li_with_handle; li].

(** ** Predicates used to state the properties *)

(** The point [(x, y)] lies in the box, borders included. *)
Definition contains (b : DOMRect) (x y : Z) : Prop :=
  left b <= x <= right b ∧ top b <= y <= bottom b.

(** No point lies in two boxes of the snapshot. *)
Definition non_overlapping (sab : list BoundsAndChild) : Prop :=
  ∀ (i j : nat) (a b : BoundsAndChild) (x y : Z),
    sab !! i = Some a → sab !! j = Some b →
    contains (bounds a) x y → contains (bounds b) x y → i = j.

(** Child [a] comes no later than child [b] by (top, then left). *)
Definition visually_before (rect : nat → DOMRect) (a b : nat) : Prop :=
  top (rect a) < top (rect b) ∨
  (top (rect a) = top (rect b) ∧ left (rect a) <= left (rect b)).

(** Children with the box corner [(t, l)]. *)
Definition at_corner (rect : nat → DOMRect) (t l : Z) (a : nat) : Prop :=
  top (rect a) = t ∧ left (rect a) = l.

#[global] Instance at_corner_dec rect t l a : Decision (at_corner rect t l a).
Proof. unfold at_corner. apply _. Defined.

(** What the four writes of [resetChild] make of a style. *)
Definition reset_style (i : nat) (st : gmap string string) : gmap string string :=
  setProperty "order" (toString (Z.of_nat i))
    (setProperty "opacity" EmptyString
      (setProperty "transform" EmptyString
        (setProperty "transition-duration" "0ms" st))).

Definition reset_element (i : nat) (el : Sortable) : Sortable :=
  set_style (reset_style i (style el)) el.



(** The snapshot refers to existing children, each once; every snapshot
    taken by [handleDragstart] does. *)
Definition snapshot_wf (s : ManualSort) : Prop :=
  NoDup (map child (sortablesAndBounds s)) ∧
  Forall (fun e => (child e < length (children s))%nat) (sortablesAndBounds s).

#[global] Instance snapshot_wf_dec s : Decision (snapshot_wf s).
Proof. unfold snapshot_wf. apply _. Defined.



(** Two states of a child that differ at most in the style properties
    [names]. *)
Definition differs_only_in (names : list string) (el el' : Sortable) : Prop :=
  draggable el' = draggable el ∧
  descendants el' = descendants el ∧
  ∀ k, k ∉ names → style el' !! k = style el !! k.

Definition presentation : list string := ["transition"; "transform"; "opacity"].

(** The descendants of a child that carry the class [drag-handle]. *)
Definition handles (el : Sortable) : list SubElement :=
  filter (has_class "drag-handle") (descendants el).

(** The handle [makeSortableDraggable] creates, once marked draggable. *)
Definition injected_handle : SubElement :=
  set_sub_draggable true (createElement_with_class "div" "drag-handle").

(** What handle creation makes of a child: a child without a handle gets
    the injected one, in front, and then has exactly that one; a child
    with handles gets no further element and keeps its number of
    handles; the first handle is draggable; the child's own [draggable]
    flag and its style are as before. *)
Definition handle_set_up (el el' : Sortable) : Prop :=
  style el' = style el ∧
  draggable el' = draggable el ∧
  (handles el = [] →
     descendants el' = injected_handle :: descendants el ∧
     handles el' = [injected_handle]) ∧
  (handles el ≠ [] →
     length (descendants el') = length (descendants el) ∧
     length (handles el') = length (handles el)) ∧
  (∃ h rest, handles el' = h :: rest ∧ sub_draggable h = true).

(** [setAttribute(name, value)] and [removeAttribute(name)]. *)
Definition setAttribute (name value : string) (s : ManualSort) : ManualSort :=
  mkManualSort (<[name := value]> (attributes s)) (children s) (listening s)
    (draggingItemIndex s) (dropIndex s) (sortablesAndBounds s) (dispatched s).

Definition removeAttribute (name : string) (s : ManualSort) : ManualSort :=
  mkManualSort (delete name (attributes s)) (children s) (listening s)
    (draggingItemIndex s) (dropIndex s) (sortablesAndBounds s) (dispatched s).

(** ** Activation, deactivation and the child-list observer

    [ManualSort] holds the fields the gesture handlers work on.  [Host]
    adds what activation manages besides the [listening] flag: the event
    types for which the instance's bound handler is registered on the
    element (registering the same handler twice is registering it once),
    and the mutation observers the instance has created, the newest
    first, each with whether it is observing; [this.observer] is the
    newest. *)

Definition set_listening (b : bool) (s : ManualSort) : ManualSort :=
  mkManualSort (attributes s) (children s) b (draggingItemIndex s)
    (dropIndex s) (sortablesAndBounds s) (dispatched s).

Record Host := mkHost {
  element : ManualSort;
  eventListeners : gset string;
  observers : list bool
}.

Definition set_element (s : ManualSort) (h : Host) : Host :=
  mkHost s (eventListeners h) (observers h).

(** [new ManualSort()] with its attributes and children, before the
    element is connected. *)
Definition new_host (attrs : gmap string string) (kids : list Sortable) : Host :=
  mkHost (constructor attrs kids) ∅ [].

Definition addEventListener (type : string) (h : Host) : Host :=
  mkHost (element h) ({[ type ]} ∪ eventListeners h) (observers h).

Definition removeEventListener (type : string) (h : Host) : Host :=
  mkHost (element h) (eventListeners h ∖ {[ type ]}) (observers h).

(** [this.observer = new MutationObserver(..); this.observer.observe(this, ..)]. *)
Definition configMutationObserver (h : Host) : Host :=
  mkHost (element h) (eventListeners h) (true :: observers h).

(** [if (this.observer) this.observer.disconnect()]. *)
Definition disconnect_observer (h : Host) : Host :=
  match observers h with
  | [] => h
  | _ :: older => mkHost (element h) (eventListeners h) (false :: older)
  end.

(** The callback of the [forEach] in [stopListeningForSortingEvents]. *)
Definition stopChild (el : Sortable) : Sortable :=
  set_draggable false (set_style (setProperty "transition" EmptyString (style el)) el).

Definition stopListeningForSortingEvents (h : Host) : Host :=
  if negb (listening (element h)) then h
  else
    let s1 := set_children (map stopChild (children (element h))) (element h) in
    let h1 := disconnect_observer (set_element s1 h) in
    let h2 := removeEventListener "dragend"
                (removeEventListener "dragover"
                   (removeEventListener "dragstart" h1)) in
    set_element (set_listening false (element h2)) h2.

Definition disconnectedCallback (h : Host) : Host :=
  stopListeningForSortingEvents h.

(** One pass of the observer callback's inner loop, for an added node
    that is the child at position [node] when the callback runs.  The
    position is what [this.sortables.indexOf(newChild)] finds.  A
    position that is no child's stands for no node. *)
Definition addedNode (s : ManualSort) (node : nat) : ManualSort * Completion :=
  match children s !! node with
  | None => (s, Normal)
  | Some el =>
      match makeSortableDraggable s el with
      | (el', Throw err) => (set_children (<[node := el']> (children s)) s, Throw err)
      | (el', Normal) =>
          (set_children
             (style_setProperty node "order" (toString (indexOf node (sortables s)))
                (<[node := el']> (children s))) s,
           Normal)
      end
  end.

Fixpoint forEach_addedNode (s : ManualSort) (addedNodes : list nat) : ManualSort * Completion :=
  match addedNodes with
  | [] => (s, Normal)
  | node :: rest =>
      match addedNode s node with
      | (s', Throw err) => (s', Throw err)
      | (s', Normal) => forEach_addedNode s' rest
      end
  end.

(** A run of gesture-move events, stopping at the first exception. *)
Fixpoint forEach_handleDragover (s : ManualSort) (events : list DragEvent)
    : ManualSort * Completion :=
  match events with
  | [] => (s, Normal)
  | e :: rest =>
      match handleDragover s e with
      | (s', _, Throw err) => (s', Throw err)
      | (s', _, Normal) => forEach_handleDragover s' rest
      end
  end.

Section Activation.

Variable getBoundingClientRect : list Sortable → nat → DOMRect.

Definition listenForSortingEvents (h : Host) : Host * Completion :=
  if listening (element h) then (h, Normal)
  else
    let h1 := addEventListener "dragend"
                (addEventListener "dragover"
                   (addEventListener "dragstart" h)) in
    let s1 := resetPreviewPositions getBoundingClientRect (element h1) in
    match makeAllSortablesDraggable s1 with
    | (s2, Throw err) => (set_element s2 h1, Throw err)
    | (s2, Normal) =>
        let h2 := configMutationObserver (set_element s2 h1) in
        (set_element (set_listening true (element h2)) h2, Normal)
    end.

Definition connectedCallback (h : Host) : Host * Completion :=
  if negb (strict_eq (getAttribute (element h) "sortable") "false")
  then listenForSortingEvents h
  else (h, Normal).

(** [newValue] is [None] when the attribute has been removed. *)
Definition attributeChangedCallback (h : Host) (name : string)
    (oldValue newValue : option string) : Host * Completion :=
  if decide (name = "sortable") then
    if negb (strict_eq newValue "false") then listenForSortingEvents h
    else (stopListeningForSortingEvents h, Normal)
  else (h, Normal).

(** The observer callback for one batch of records, [addedNodes] being
    the added nodes of all records in order. *)
Definition childListCallback (s : ManualSort) (addedNodes : list nat)
    : ManualSort * Completion :=
  match forEach_addedNode s addedNodes with
  | (s', Throw err) => (s', Throw err)
  | (s', Normal) => (resetPreviewPositions getBoundingClientRect s', Normal)
  end.

(** What the life cycle of the element and its attributes delivers. *)
Inductive LifecycleEvent :=
| Connected
| Disconnected
| AttributeChanged (name : string) (oldValue newValue : option string).

Definition react (h : Host) (ev : LifecycleEvent) : Host * Completion :=
  match ev with
  | Connected => connectedCallback h
  | Disconnected => (disconnectedCallback h, Normal)
  | AttributeChanged name oldValue newValue =>
      attributeChangedCallback h name oldValue newValue
  end.

(** A run of life-cycle events.  An exception ends one callback, not the
    run: the next event finds the state the exception left. *)
Fixpoint react_all (h : Host) (events : list LifecycleEvent) : Host :=
  match events with
  | [] => h
  | ev :: rest => react_all (react h ev).1 rest
  end.

End Activation.

#[global] Instance contains_dec b x y : Decision (contains b x y).
Proof. unfold contains. apply _. Defined.

(** Entry [a] of a snapshot comes no later than entry [b] by the
    (top, then left) corner of the recorded boxes. *)
Definition recorded_before (a b : BoundsAndChild) : Prop :=
  top (bounds a) < top (bounds b) ∨
  (top (bounds a) = top (bounds b) ∧ left (bounds a) <= left (bounds b)).

(** The style properties [resetPreviewPositions] writes. *)
Definition reset_properties : list string :=
  ["transition-duration"; "transform"; "opacity"; "order"].

(** The event types [listenForSortingEvents] registers handlers for. *)
Definition sorting_events : gset string :=
  {[ "dragstart"; "dragover"; "dragend" ]}.

(** What holds of the listeners and the observers between life-cycle
    callbacks: only the three gesture handlers are ever registered; while
    [listening] is set all three are, and exactly the newest observer is
    observing; while it is not set, no observer is observing. *)
Definition lifecycle_inv (h : Host) : Prop :=
  eventListeners h ⊆ sorting_events ∧
  if listening (element h)
  then eventListeners h = sorting_events ∧
       ∃ older, observers h = true :: older ∧ Forall (eq false) older
  else Forall (eq false) (observers h).

(** Child [el'] is child [el] with its first handle marked draggable. *)
Definition handle_marked (el el' : Sortable) : Prop :=
  ∃ (k : nat) (h : SubElement),
    querySelector "drag-handle" el = Some (k, h) ∧
    el' = set_descendants (alter (set_sub_draggable true) k (descendants el)) el.

(** What one pass of the observer callback makes of an added child in
    the default configuration: draggable, with [order] set to its
    position among the children. *)
Definition added_element (node : nat) (el : Sortable) : Sortable :=
  set_style (setProperty "order" (toString (Z.of_nat node)) (style (set_draggable true el)))
    (set_draggable true el).

(** Hosts to run activation on: two plain items; a list that asks for
    caller-provided handles whose second item has none; and the first
    one once activated in a block layout. *)
Definition host_plain : Host := new_host ∅ [li; li].
Definition host_missing_handle : Host :=
  new_host {[ "drag-handles" := "true" ]} [li_with_handle; li].
Definition host_listening : Host := (listenForSortingEvents block_layout host_plain).1.

(** ** Integer coordinates the double arithmetic of the code is exact on

    An integer of size at most 2^52 is a double; the difference of two
    such integers has size at most 2^53, so the double subtraction gives
    it exactly, and a number below 10^21 in size prints in plain decimal
    digits.  On these coordinates [previewEntry] and [translate] compute
    what the code computes. *)
Definition safe_coordinate (z : Z) : Prop := - 2 ^ 52 <= z <= 2 ^ 52.

Definition safe_snapshot (sab : list BoundsAndChild) : Prop :=
  Forall (fun b => safe_coordinate (left (bounds b)) ∧ safe_coordinate (top (bounds b))) sab.

#[global] Instance safe_snapshot_dec sab : Decision (safe_snapshot sab).
Proof. unfold safe_snapshot, safe_coordinate. apply _. Defined.

(** ** The [transition] family of style properties

    The shorthand [transition] and its longhands, all of which start with
    the shorthand's name. *)
Definition transition_family (k : string) : Prop :=
  String.prefix "transition" k = true.

(** Two states of a child that differ at most in the style properties
    [names] and in the [transition] family. *)
Definition differs_outside_transition (names : list string) (el el' : Sortable) : Prop :=
  draggable el' = draggable el ∧
  descendants el' = descendants el ∧
  ∀ k, k ∉ names → ¬ transition_family k → style el' !! k = style el !! k.

(** Child [el'] is child [el] as deactivation leaves it: not draggable,
    no [transition] declared, the style properties outside the
    [transition] family and the descendants (handles and their
    [draggable] flags included) as before. *)
Definition deactivated (el el' : Sortable) : Prop :=
  draggable el' = false ∧
  descendants el' = descendants el ∧
  style el' !! "transition" = None ∧
  ∀ k, ¬ transition_family k → style el' !! k = style el !! k.

(** ** The calls of the gesture-end handler, in order

    [handleDragend] and [resetPreviewPositions] read once more, as the
    sequence of calls they make on the element and its children: the
    dispatch of an event and the writes of style properties.
    [perform_all] carries the calls out one after the other. *)
Inductive Effect :=
| DispatchEvent (ev : CustomEvent)
| SetProperty (ref : nat) (name value : string).

Definition perform (s : ManualSort) (eff : Effect) : ManualSort :=
  match eff with
  | DispatchEvent ev => dispatchEvent ev s
  | SetProperty ref name value =>
      set_children (style_setProperty ref name value (children s)) s
  end.

Definition perform_all (effs : list Effect) (s : ManualSort) : ManualSort :=
  foldl perform s effs.

Definition is_SetProperty (eff : Effect) : Prop :=
  match eff with
  | SetProperty _ _ _ => True
  | DispatchEvent _ => False
  end.

(** The callback of the [forEach] in [resetPreviewPositions]. *)
Definition resetChild_effects (i ref : nat) : list Effect :=
  [SetProperty ref "transition-duration" "0ms";
   SetProperty ref "transform" EmptyString;
   SetProperty ref "opacity" EmptyString;
   SetProperty ref "order" (toString (Z.of_nat i))].

Fixpoint forEach_resetChild_effects (i : nat) (arr : list nat) : list Effect :=
  match arr with
  | [] => []
  | ref :: arr' => resetChild_effects i ref ++ forEach_resetChild_effects (S i) arr'
  end.

Section Effects.

Variable getBoundingClientRect : list Sortable → nat → DOMRect.

Definition resetPreviewPositions_effects (s : ManualSort) : list Effect :=
  forEach_resetChild_effects 0 (sortablesInVisualOrder getBoundingClientRect s).

Definition handleDragend_effects (s : ManualSort) (e : DragEvent) : list Effect :=
  if bool_decide (draggingItemIndex s = Some (-1)) then []
  else
    let ev := mkCustomEvent "sort" (sortablesInVisualOrder getBoundingClientRect s) in
    DispatchEvent ev :: resetPreviewPositions_effects (perform s (DispatchEvent ev)).

End Effects.

(** ** The gesture-start event as it is delivered

    An element the handler can meet: the child of the list at a
    position, an element that is not a child of the list, or [null]. *)
Inductive ElementRef :=
| child_at (n : nat)
| other_element
| null.

(** [e.target], [e.target.offsetParent] and whether [e.dataTransfer] is
    there. *)
Record DragstartEvent := mkDragstartEvent {
  target : ElementRef;
  target_offsetParent : ElementRef;
  dataTransfer : bool
}.

Definition as_child (el : ElementRef) : option nat :=
  match el with
  | child_at n => Some n
  | other_element | null => None
  end.

Section DragstartEvents.

Variable getBoundingClientRect : list Sortable → nat → DOMRect.

(** The whole handler.  Reading [offsetParent] of a [null] target raises
    before anything is written; the two statements on [e.dataTransfer]
    come after the writes: the first raises when there is no
    [dataTransfer], the second when the resolved child is [null], whose
    [clientWidth] it reads. *)
Definition handleDragstart_event (s : ManualSort) (e : DragstartEvent)
    : ManualSort * Completion :=
  let resolved :=
    if useDragHandles s then
      match target e with
      | null => None
      | _ => Some (target_offsetParent e)
      end
    else Some (target e) in
  match resolved with
  | None => (s, Throw TypeError)
  | Some child =>
      let s' := handleDragstart getBoundingClientRect s
                  (mkDragEvent (as_child child) 0 0 false) in
      if negb (dataTransfer e) then (s', Throw TypeError)
      else
        match child with
        | null => (s', Throw TypeError)
        | _ => (s', Normal)
        end
  end.

End DragstartEvents.

(** A gesture start on the handle of the third of four items, whose
    positioned ancestor is the item, in a list that uses handles. *)
Definition list4_handles : ManualSort :=
  constructor {[ "drag-handles" := "true" ]}
    [li_with_handle; li_with_handle; li_with_handle; li_with_handle].
Definition dragstart_on_handle : DragstartEvent :=
  mkDragstartEvent other_element (child_at 2) true.

(** * Properties *)

(** ** [findIndex] and [at_index] *)

Lemma findIndex_from_spec {A} (p : A → bool) (l : list A) (k : Z) :
  (findIndex_from p k l = -1 ∧ ∀ x, x ∈ l → p x = false) ∨
  (∃ (i : nat) (x : A),
      findIndex_from p k l = k + Z.of_nat i ∧ l !! i = Some x ∧ p x = true ∧
      ∀ (j : nat) (y : A), (j < i)%nat → l !! j = Some y → p y = false).
Proof.
  revert k. induction l as [|a l IH]; intros k; simpl.
  - left. split; [done|]. intros x Hx. by apply elem_of_nil in Hx.
  - destruct (p a) eqn:Hpa.
    + right. exists 0%nat, a. repeat split; [lia|done|]. intros j y Hj. lia.
    + destruct (IH (k + 1)) as [[Hr Hall] | (i & x & Hr & Hi & Hpx & Hbefore)].
      * left. split; [done|]. intros x Hx.
        apply elem_of_cons in Hx as [-> | Hx]; [done | by apply Hall].
      * right. exists (S i), x. repeat split; [lia|done|done|].
        intros [|j] y Hj Hy; simpl in Hy.
        -- by injection Hy as <-.
        -- apply (Hbefore j); [lia | done].
Qed.

Lemma at_index_None {A} (l : list A) (i : Z) :
  i < 0 ∨ Z.of_nat (length l) <= i → at_index l i = None.
Proof.
  intros H. unfold at_index. destruct (Z.ltb_spec i 0); [done|].
  apply lookup_ge_None. lia.
Qed.

(** ** [sort]: a stable sort *)

Section Sort.

Context {A : Type} (cmp : A → A → Z).

Lemma sort_insert_Permutation (x : A) (l : list A) :
  Permutation (x :: l) (sort_insert cmp x l).
Proof.
  induction l as [|y l IH]; simpl; [done|].
  destruct (cmp x y <=? 0); [done|].
  rewrite perm_swap. by apply perm_skip.
Qed.

Lemma sort_Permutation (l : list A) : Permutation l (sort cmp l).
Proof.
  induction l as [|x l IH]; simpl; [done|].
  rewrite <- sort_insert_Permutation. by apply perm_skip.
Qed.

Hypothesis cmp_total : ∀ x y, cmp x y <= 0 ∨ cmp y x <= 0.
Hypothesis cmp_trans : ∀ x y z, cmp x y <= 0 → cmp y z <= 0 → cmp x z <= 0.

Lemma sort_insert_StronglySorted (x : A) (l : list A) :
  StronglySorted (fun a b => cmp a b <= 0) l →
  StronglySorted (fun a b => cmp a b <= 0) (sort_insert cmp x l).
Proof.
  induction 1 as [|y l Hl IH Hy]; simpl.
  - repeat constructor.
  - destruct (Z.leb_spec (cmp x y) 0) as [Hxy|Hxy].
    + constructor; [by constructor|].
      constructor; [done|].
      eapply Forall_impl; [exact Hy|]. intros z Hz. by eapply cmp_trans.
    + constructor; [done|].
      rewrite <- sort_insert_Permutation.
      constructor; [|done].
      destruct (cmp_total x y); [lia | done].
Qed.

Lemma sort_StronglySorted (l : list A) :
  StronglySorted (fun a b => cmp a b <= 0) (sort cmp l).
Proof.
  induction l as [|x l IH]; simpl; [constructor|].
  by apply sort_insert_StronglySorted.
Qed.

(** Elements that compare as equal keep their order. *)
Lemma sort_insert_filter (P : A → Prop) `{!∀ x, Decision (P x)} (x : A) (l : list A) :
  (∀ a b, P a → P b → cmp a b <= 0) →
  filter P (sort_insert cmp x l) = filter P (x :: l).
Proof.
  intros HP. induction l as [|y l IH]; simpl; [done|].
  destruct (Z.leb_spec (cmp x y) 0) as [Hxy|Hxy]; [done|].
  rewrite filter_cons, IH, !filter_cons.
  destruct (decide (P y)) as [Hy|Hy]; [|done].
  destruct (decide (P x)) as [Hx|Hx]; [|done].
  specialize (HP x y Hx Hy). lia.
Qed.

Lemma sort_filter (P : A → Prop) `{!∀ x, Decision (P x)} (l : list A) :
  (∀ a b, P a → P b → cmp a b <= 0) →
  filter P (sort cmp l) = filter P l.
Proof.
  intros HP. induction l as [|x l IH]; simpl; [done|].
  rewrite sort_insert_filter by done.
  by rewrite !filter_cons, IH.
Qed.

End Sort.

Lemma compareBounds_le (a b : DOMRect) :
  compareBounds a b <= 0 ↔ top a < top b ∨ (top a = top b ∧ left a <= left b).
Proof.
  unfold compareBounds.
  destruct (Z.ltb_spec (top a) (top b)); [lia|].
  destruct (Z.gtb_spec (top a) (top b)); [lia|].
  destruct (Z.ltb_spec (left a) (left b)); [lia|].
  destruct (Z.gtb_spec (left a) (left b)); lia.
Qed.

(** ** Hit test *)

(** C2. [findSortableIndex] scans the snapshot in stored order: it returns
    the index of the first entry whose box contains the point, borders
    included, and [-1] when no box contains it; when the boxes do not
    overlap, the index returned is the only one whose box contains the
    point. *)
Theorem findSortableIndex_first_hit (s : ManualSort) (x y : Z) :
  (findSortableIndex s x y = -1 ∧
   ∀ e, e ∈ sortablesAndBounds s → ¬ contains (bounds e) x y) ∨
  (∃ (i : nat) (e : BoundsAndChild),
      findSortableIndex s x y = Z.of_nat i ∧
      sortablesAndBounds s !! i = Some e ∧
      contains (bounds e) x y ∧
      (∀ (j : nat) (e' : BoundsAndChild),
          (j < i)%nat → sortablesAndBounds s !! j = Some e' →
          ¬ contains (bounds e') x y) ∧
      (non_overlapping (sortablesAndBounds s) →
       ∀ (j : nat) (e' : BoundsAndChild),
          sortablesAndBounds s !! j = Some e' → contains (bounds e') x y → j = i)).
Proof.
  unfold findSortableIndex, findIndex.
  set (p := fun c : BoundsAndChild => _ && _ && _ && _).
  assert (Hp : ∀ c, p c = true ↔ contains (bounds c) x y).
  { intros c. unfold p, contains. rewrite !andb_true_iff.
    rewrite !Z.geb_le, !Z.leb_le. lia. }
  destruct (findIndex_from_spec p (sortablesAndBounds s) 0)
    as [[Hr Hall] | (i & e & Hr & Hi & Hpe & Hbefore)].
  - left. split; [done|]. intros e He Hc.
    apply Hp in Hc. rewrite (Hall e He) in Hc. done.
  - right. exists i, e. split; [lia|]. split; [done|].
    split; [by apply Hp|]. split.
    + intros j e' Hj He' Hc. apply Hp in Hc.
      rewrite (Hbefore j e' Hj He') in Hc. done.
    + intros Hno j e' He' Hc.
      apply (Hno j i e' e x y); [done|done|done|by apply Hp].
Qed.

(** ** Visual order *)

Section LayoutProperties.

Variable getBoundingClientRect : list Sortable → nat → DOMRect.

Lemma StronglySorted_weaken {A} (R R' : A → A → Prop) (l : list A) :
  (∀ a b, R a b → R' a b) → StronglySorted R l → StronglySorted R' l.
Proof.
  intros HR. induction 1 as [|x l Hl IH Hx]; constructor; [done|].
  eapply Forall_impl; [exact Hx|]. intros b. apply HR.
Qed.

Lemma StronglySorted_distinct_tops (rect : nat → DOMRect) (l : list nat) :
  StronglySorted (visually_before rect) l →
  NoDup (map (fun a => top (rect a)) l) →
  StronglySorted (fun a b => top (rect a) < top (rect b)) l.
Proof.
  induction 1 as [|x l Hl IH Hx]; intros Hnd; [constructor|].
  simpl in Hnd. apply NoDup_cons in Hnd as [Hnotin Hnd].
  constructor; [by apply IH|].
  apply Forall_forall. intros b Hb.
  rewrite Forall_forall in Hx. destruct (Hx b Hb) as [Hlt | [Heq _]]; [done|].
  exfalso. apply Hnotin. rewrite Heq.
  apply (list_elem_of_fmap_2 (fun a => top (rect a))). done.
Qed.

(** C3. [sortablesInVisualOrder] returns the children stably sorted by the
    (top, then left) corner of their boxes: the result is a rearrangement
    of the children, ascending by top with ties broken by ascending left;
    children with the same corner keep their order in the child sequence;
    and when all tops differ the result is strictly ascending by top. *)
Theorem sortablesInVisualOrder_stable_sort (s : ManualSort) :
  let rect := getBoundingClientRect (children s) in
  let vis := sortablesInVisualOrder getBoundingClientRect s in
  Permutation (sortables s) vis ∧
  StronglySorted (visually_before rect) vis ∧
  (∀ t l : Z, filter (at_corner rect t l) vis = filter (at_corner rect t l) (sortables s)) ∧
  (NoDup (map (fun a => top (rect a)) (sortables s)) →
   StronglySorted (fun a b => top (rect a) < top (rect b)) vis).
Proof.
  intros rect vis. unfold vis, sortablesInVisualOrder. fold rect.
  set (cmp := fun a b : nat => compareBounds (rect a) (rect b)).
  assert (Hle : ∀ a b, cmp a b <= 0 ↔ visually_before rect a b).
  { intros a b. apply compareBounds_le. }
  assert (Hsorted : StronglySorted (visually_before rect) (sort cmp (sortables s))).
  { eapply StronglySorted_weaken; [|apply sort_StronglySorted].
    - intros a b Hab. by apply Hle.
    - intros a b. rewrite !Hle. unfold visually_before. lia.
    - intros a b c. rewrite !Hle. unfold visually_before. lia. }
  split; [apply sort_Permutation|].
  split; [done|]. split.
  - intros t l. apply sort_filter.
    intros a b [Ha1 Ha2] [Hb1 Hb2]. apply Hle. unfold visually_before. lia.
  - intros Hnd. apply StronglySorted_distinct_tops; [done|].
    assert (Hperm : Permutation (map (fun a => top (rect a)) (sortables s))
                      (map (fun a => top (rect a)) (sort cmp (sortables s))))
      by apply Permutation_map, sort_Permutation.
    by rewrite <- Hperm.
Qed.

(** ** Reset *)

Lemma pretty_N_go_length (x : N) (acc : string) :
  (String.length acc <= String.length (pretty_N_go x acc))%nat.
Proof.
  revert acc. induction (N.lt_wf_0 x) as [x _ IH]; intros acc.
  destruct (decide (x = 0%N)) as [->|Hx]; [by rewrite pretty_N_go_0|].
  rewrite pretty_N_go_step by lia.
  etrans; [|apply IH; apply N.div_lt; lia]. simpl. lia.
Qed.

Lemma toString_nonempty (n : Z) : toString n ≠ EmptyString.
Proof.
  assert (Hpos : ∀ p : positive, pretty p ≠ EmptyString).
  { intros p Hp. unfold pretty, pretty_positive, pretty, pretty_N in Hp.
    destruct (decide (N.pos p = 0%N)); [done|].
    rewrite pretty_N_go_step in Hp by lia.
    pose proof (pretty_N_go_length (N.pos p `div` 10)
                  (String (pretty_N_char (N.pos p `mod` 10)) EmptyString)) as Hlen.
    rewrite Hp in Hlen. simpl in Hlen. lia. }
  unfold toString, pretty, pretty_Z. destruct n as [|p|p]; [done|apply Hpos|done].
Qed.

Lemma reset_style_lookup (i : nat) (st : gmap string string) :
  reset_style i st !! "transform" = None ∧
  reset_style i st !! "opacity" = None ∧
  reset_style i st !! "transition-duration" = Some "0ms" ∧
  reset_style i st !! "order" = Some (toString (Z.of_nat i)).
Proof.
  unfold reset_style, setProperty.
  pose proof (toString_nonempty (Z.of_nat i)).
  repeat case_decide; try done.
  repeat split; by simplify_map_eq.
Qed.

Lemma reset_style_idemp (i : nat) (st : gmap string string) :
  reset_style i (reset_style i st) = reset_style i st.
Proof.
  unfold reset_style, setProperty.
  pose proof (toString_nonempty (Z.of_nat i)).
  repeat case_decide; try done.
  apply map_eq. intros k.
  destruct (decide (k = "order")) as [->|]; [by simplify_map_eq|].
  destruct (decide (k = "opacity")) as [->|]; [by simplify_map_eq|].
  destruct (decide (k = "transform")) as [->|]; [by simplify_map_eq|].
  destruct (decide (k = "transition-duration")) as [->|]; by simplify_map_eq.
Qed.

Lemma resetChild_alter (i ref : nat) (els : list Sortable) :
  resetChild i ref els = alter (reset_element i) ref els.
Proof.
  unfold resetChild, style_setProperty.
  rewrite !list_alter_alter_eq. apply list_alter_ext; [|done].
  by intros [st d ds] _.
Qed.

Lemma forEach_resetChild_length (arr : list nat) (i : nat) (els : list Sortable) :
  length (forEach_resetChild i arr els) = length els.
Proof.
  revert i els. induction arr as [|r arr IH]; intros i els; simpl; [done|].
  by rewrite IH, resetChild_alter, length_alter.
Qed.

Lemma forEach_resetChild_other (arr : list nat) (i : nat) (els : list Sortable) (r : nat) :
  r ∉ arr → forEach_resetChild i arr els !! r = els !! r.
Proof.
  revert i els. induction arr as [|r0 arr IH]; intros i els Hr; simpl; [done|].
  apply not_elem_of_cons in Hr as [Hne Hr].
  rewrite IH by done. rewrite resetChild_alter.
  by apply list_lookup_alter_ne.
Qed.

Lemma forEach_resetChild_at (arr : list nat) (i : nat) (els : list Sortable) (j r : nat) :
  NoDup arr → arr !! j = Some r →
  forEach_resetChild i arr els !! r = reset_element (i + j) <$> els !! r.
Proof.
  revert i els j. induction arr as [|r0 arr IH]; intros i els j Hnd Hj; [done|].
  apply NoDup_cons in Hnd as [Hnotin Hnd]. destruct j as [|j]; simpl in *.
  - injection Hj as ->.
    rewrite forEach_resetChild_other by done.
    rewrite resetChild_alter, Nat.add_0_r. apply list_lookup_alter_eq.
  - assert (r ≠ r0).
    { intros ->. apply Hnotin. by eapply list_elem_of_lookup_2. }
    rewrite (IH (S i) _ j) by done.
    rewrite resetChild_alter, list_lookup_alter_ne by done.
    by replace (S i + j)%nat with (i + S j)%nat by lia.
Qed.

Lemma sortablesInVisualOrder_Permutation (s : ManualSort) :
  Permutation (sortables s) (sortablesInVisualOrder getBoundingClientRect s).
Proof. apply sort_Permutation. Qed.

Lemma sortablesInVisualOrder_NoDup (s : ManualSort) :
  NoDup (sortablesInVisualOrder getBoundingClientRect s).
Proof.
  rewrite <- sortablesInVisualOrder_Permutation. apply NoDup_seq.
Qed.

Lemma sortablesInVisualOrder_elem (s : ManualSort) (r : nat) :
  r ∈ sortablesInVisualOrder getBoundingClientRect s ↔ (r < length (children s))%nat.
Proof.
  rewrite <- sortablesInVisualOrder_Permutation. unfold sortables.
  rewrite elem_of_seq. lia.
Qed.

Lemma forEach_resetChild_idemp (arr : list nat) (els : list Sortable) :
  NoDup arr →
  forEach_resetChild 0 arr (forEach_resetChild 0 arr els) = forEach_resetChild 0 arr els.
Proof.
  intros Hnd. apply list_eq. intros r.
  destruct (decide (r ∈ arr)) as [Hin|Hout].
  - apply list_elem_of_lookup_1 in Hin as [j Hj].
    rewrite !(forEach_resetChild_at arr 0 _ j r) by done.
    rewrite <- option_fmap_compose. apply option_fmap_ext.
    intros [st d ds]. unfold reset_element, set_style. simpl.
    by rewrite reset_style_idemp.
  - by rewrite !forEach_resetChild_other.
Qed.

(** C6, as amended.  After [resetPreviewPositions] every item has no
    [transform] and no [opacity] declared, a [transition-duration] of 0ms
    and an [order] equal to its position in the visual order computed
    when the reset started; running the reset again leaves that state
    unchanged provided the visual order read after the first reset is
    the one the first reset used. *)
Theorem resetPreviewPositions_resets (s : ManualSort) :
  let vis := sortablesInVisualOrder getBoundingClientRect s in
  let s' := resetPreviewPositions getBoundingClientRect s in
  (∀ (ref : nat) (el' : Sortable), children s' !! ref = Some el' →
     ∃ i : nat, vis !! i = Some ref ∧
       style el' !! "transform" = None ∧
       style el' !! "opacity" = None ∧
       style el' !! "transition-duration" = Some "0ms" ∧
       style el' !! "order" = Some (toString (Z.of_nat i))) ∧
  (sortablesInVisualOrder getBoundingClientRect s' = vis →
   resetPreviewPositions getBoundingClientRect s' = s').
Proof.
  intros vis s'. split.
  - intros ref el' Hel'.
    assert (Hlt : (ref < length (children s))%nat).
    { apply lookup_lt_Some in Hel'. unfold s', resetPreviewPositions in Hel'.
      simpl in Hel'. by rewrite forEach_resetChild_length in Hel'. }
    apply sortablesInVisualOrder_elem in Hlt as Hin.
    apply list_elem_of_lookup_1 in Hin as [i Hi]. exists i. split; [done|].
    unfold s', resetPreviewPositions in Hel'. simpl in Hel'.
    rewrite (forEach_resetChild_at _ 0 _ i ref) in Hel'
      by (done || apply sortablesInVisualOrder_NoDup).
    destruct (children s !! ref) as [el|]; [|done].
    injection Hel' as <-. simpl. apply reset_style_lookup.
  - intros Hvis. unfold resetPreviewPositions at 1. rewrite Hvis.
    unfold s', resetPreviewPositions, set_children. simpl. f_equal.
    apply forEach_resetChild_idemp, sortablesInVisualOrder_NoDup.
Qed.

(** ** Gesture end *)

Lemma sortablesInVisualOrder_sorted (s : ManualSort) :
  StronglySorted (visually_before (getBoundingClientRect (children s)))
    (sortablesInVisualOrder getBoundingClientRect s) ∧
  ∀ t l : Z,
    filter (at_corner (getBoundingClientRect (children s)) t l)
      (sortablesInVisualOrder getBoundingClientRect s)
    = filter (at_corner (getBoundingClientRect (children s)) t l) (sortables s).
Proof.
  unfold sortablesInVisualOrder.
  set (rect := getBoundingClientRect (children s)).
  set (cmp := fun a b : nat => compareBounds (rect a) (rect b)).
  assert (Hle : ∀ a b, cmp a b <= 0 ↔ visually_before rect a b)
    by (intros a b; apply compareBounds_le).
  split.
  - eapply StronglySorted_weaken; [|apply sort_StronglySorted].
    + intros a b Hab. by apply Hle.
    + intros a b. rewrite !Hle. unfold visually_before. lia.
    + intros a b c. rewrite !Hle. unfold visually_before. lia.
  - intros t l. apply sort_filter.
    intros a b [Ha1 Ha2] [Hb1 Hb2]. apply Hle. unfold visually_before. lia.
Qed.

Lemma resetPreviewPositions_child (s : ManualSort) (ref : nat) (el' : Sortable) :
  children (resetPreviewPositions getBoundingClientRect s) !! ref = Some el' →
  ∃ i : nat,
    sortablesInVisualOrder getBoundingClientRect s !! i = Some ref ∧
    style el' !! "transform" = None ∧
    style el' !! "opacity" = None ∧
    style el' !! "transition-duration" = Some "0ms" ∧
    style el' !! "order" = Some (toString (Z.of_nat i)).
Proof.
  intros Hel'.
  assert (Hlt : (ref < length (children s))%nat).
  { apply lookup_lt_Some in Hel'. unfold resetPreviewPositions in Hel'.
    simpl in Hel'. by rewrite forEach_resetChild_length in Hel'. }
  apply sortablesInVisualOrder_elem in Hlt as Hin.
  apply list_elem_of_lookup_1 in Hin as [i Hi]. exists i. split; [done|].
  unfold resetPreviewPositions in Hel'. simpl in Hel'.
  rewrite (forEach_resetChild_at _ 0 _ i ref) in Hel'
    by (done || apply sortablesInVisualOrder_NoDup).
  destruct (children s !! ref) as [el|]; [|done].
  injection Hel' as <-. simpl. apply reset_style_lookup.
Qed.

Lemma perform_all_app (effs effs' : list Effect) (s : ManualSort) :
  perform_all (effs ++ effs') s = perform_all effs' (perform_all effs s).
Proof. unfold perform_all. apply foldl_app. Qed.

Lemma perform_all_forEach_resetChild (arr : list nat) (i : nat) (s : ManualSort) :
  perform_all (forEach_resetChild_effects i arr) s
  = set_children (forEach_resetChild i arr (children s)) s.
Proof.
  revert i s. induction arr as [|ref arr IH]; intros i s.
  - by destruct s.
  - cbn [forEach_resetChild_effects forEach_resetChild].
    rewrite perform_all_app, IH. by destruct s.
Qed.

Lemma forEach_resetChild_effects_writes (arr : list nat) (i : nat) :
  Forall is_SetProperty (forEach_resetChild_effects i arr).
Proof.
  revert i. induction arr as [|ref arr IH]; intros i; simpl; [constructor|].
  repeat (constructor; [exact I|]). apply IH.
Qed.

(** C5. While a gesture is active, the calls [handleDragend] makes are one
    dispatch followed by style writes only, and carrying them out in that
    order gives the state the handler returns.  The dispatch is of one
    [sort] event, the only event the handler adds to the log.  Its
    payload is the children stably sorted by the (top, then left) corner
    of the boxes they have when the handler starts, whatever the
    snapshot holds.  The writes are the reset: they leave every child
    without [transform] and [opacity], with a [transition-duration] of
    0ms and with [order] equal to its position in the payload. *)
Theorem handleDragend_emits_then_resets (s : ManualSort) (e : DragEvent) :
  draggingItemIndex s ≠ Some (-1) →
  ∃ (payload : list nat) (writes : list Effect),
    handleDragend_effects getBoundingClientRect s e
    = DispatchEvent (mkCustomEvent "sort" payload) :: writes ∧
    Forall is_SetProperty writes ∧
    perform_all (handleDragend_effects getBoundingClientRect s e) s
    = handleDragend getBoundingClientRect s e ∧
    dispatched (handleDragend getBoundingClientRect s e)
    = dispatched s ++ [mkCustomEvent "sort" payload] ∧
    Permutation (sortables s) payload ∧
    StronglySorted (visually_before (getBoundingClientRect (children s))) payload ∧
    (∀ t l : Z,
       filter (at_corner (getBoundingClientRect (children s)) t l) payload
       = filter (at_corner (getBoundingClientRect (children s)) t l) (sortables s)) ∧
    (∀ snapshot : list BoundsAndChild,
       dispatched (handleDragend getBoundingClientRect
                     (set_sortablesAndBounds snapshot s) e)
       = dispatched s ++ [mkCustomEvent "sort" payload]) ∧
    (∀ (ref : nat) (el' : Sortable),
       children (handleDragend getBoundingClientRect s e) !! ref = Some el' →
       ∃ i : nat,
         payload !! i = Some ref ∧
         style el' !! "transform" = None ∧
         style el' !! "opacity" = None ∧
         style el' !! "transition-duration" = Some "0ms" ∧
         style el' !! "order" = Some (toString (Z.of_nat i))).
Proof.
  intros Hd.
  set (payload := sortablesInVisualOrder getBoundingClientRect s).
  set (ev := mkCustomEvent "sort" payload).
  exists payload, (resetPreviewPositions_effects getBoundingClientRect
                     (perform s (DispatchEvent ev))).
  assert (Hrun : handleDragend getBoundingClientRect s e
                 = resetPreviewPositions getBoundingClientRect (dispatchEvent ev s)).
  { unfold handleDragend. by rewrite bool_decide_eq_false_2 by done. }
  assert (Heffs : handleDragend_effects getBoundingClientRect s e
                  = DispatchEvent ev
                    :: resetPreviewPositions_effects getBoundingClientRect
                         (perform s (DispatchEvent ev))).
  { unfold handleDragend_effects. by rewrite bool_decide_eq_false_2 by done. }
  destruct (sortablesInVisualOrder_sorted s) as [Hsorted Hstable].
  split; [done|]. split; [apply forEach_resetChild_effects_writes|].
  split.
  { rewrite Heffs, Hrun. unfold perform_all. simpl.
    apply (perform_all_forEach_resetChild _ 0 (perform s (DispatchEvent ev))). }
  split; [by rewrite Hrun|].
  split; [apply sortablesInVisualOrder_Permutation|].
  split; [done|]. split; [done|]. split.
  - intros snapshot. unfold handleDragend. simpl.
    by rewrite bool_decide_eq_false_2 by done.
  - intros ref el' Hel'. rewrite Hrun in Hel'.
    by apply resetPreviewPositions_child in Hel'.
Qed.

(** ** Handlers outside a gesture *)

Lemma handlers_return_at_sentinel (s : ManualSort) (e : DragEvent) :
  draggingItemIndex s = Some (-1) →
  handleDragover s e = (s, e, Normal) ∧ handleDragend getBoundingClientRect s e = s.
Proof.
  intros Hd. unfold handleDragover, handleDragend.
  by rewrite !bool_decide_eq_true_2 by done.
Qed.

(** C4, at the failing input.  On a freshly constructed component, whose
    [draggingItemIndex] is still undefined, [handleDragend] passes its
    [-1] guard, dispatches a [sort] event and runs the reset, and
    [handleDragover] passes the same guard, cancels the event's default
    action and stores [-1] in [dropIndex]. *)
Theorem handlers_without_dragstart (attrs : gmap string string)
    (kids : list Sortable) (e : DragEvent) :
  let s := constructor attrs kids in
  handleDragend getBoundingClientRect s e =
    resetPreviewPositions getBoundingClientRect
      (dispatchEvent (mkCustomEvent "sort" (sortablesInVisualOrder getBoundingClientRect s)) s) ∧
  dispatched (handleDragend getBoundingClientRect s e) =
    [mkCustomEvent "sort" (sortablesInVisualOrder getBoundingClientRect s)] ∧
  handleDragover s e = (set_dropIndex (Some (-1)) s, preventDefault e, Normal).
Proof. done. Qed.

End LayoutProperties.

(** ** Preview renderer *)

Lemma at_index_Some {A} (l : list A) (i : Z) :
  0 <= i < Z.of_nat (length l) → ∃ x, at_index l i = Some x.
Proof.
  intros H. unfold at_index. destruct (Z.ltb_spec i 0); [lia|].
  apply lookup_lt_is_Some. lia.
Qed.


Lemma previewEntry_in_range (sab : list BoundsAndChild) (d newIndex : Z)
    (i : nat) (e : BoundsAndChild) :
  0 <= d < Z.of_nat (length sab) →
  0 <= newIndex < Z.of_nat (length sab) →
  sab !! i = Some e →
  ∃ (to : BoundsAndChild) (o : Opacity),
    previewEntry sab d newIndex (Z.min d newIndex) (Z.max d newIndex) (Z.of_nat i) e
    = Some (Some (left (bounds to) - left (bounds e)),
            Some (top (bounds to) - top (bounds e)), o) ∧
    (Z.of_nat i = d → at_index sab newIndex = Some to ∧ o = opacity_01) ∧
    (Z.of_nat i < Z.min d newIndex ∨ Z.max d newIndex < Z.of_nat i →
       to = e ∧ o = opacity_07) ∧
    (Z.min d newIndex <= Z.of_nat i < d →
       at_index sab (Z.of_nat i + 1) = Some to ∧ o = opacity_1) ∧
    (d < Z.of_nat i <= Z.max d newIndex →
       at_index sab (Z.of_nat i - 1) = Some to ∧ o = opacity_1).
Proof.
  intros Hd Hn Hi. apply lookup_lt_Some in Hi as Hlt. unfold previewEntry.
  destruct (Z.eqb_spec (Z.of_nat i) d) as [Heq|Hne].
  - destruct (at_index_Some sab newIndex Hn) as [to Hto]. rewrite Hto.
    exists to, opacity_01. split; [done|]. repeat split; lia || done.
  - destruct (Z.ltb_spec (Z.of_nat i) (Z.min d newIndex)) as [Hlo|Hlo]; simpl.
    { exists e, opacity_07. split; [by rewrite !Z.sub_diag|].
      repeat split; lia || done. }
    destruct (Z.gtb_spec (Z.of_nat i) (Z.max d newIndex)) as [Hhi|Hhi]; simpl.
    { exists e, opacity_07. split; [by rewrite !Z.sub_diag|].
      repeat split; lia || done. }
    destruct (Z.ltb_spec (Z.of_nat i) d) as [Hbefore|Hafter].
    + destruct (at_index_Some sab (Z.of_nat i + 1)) as [to Hto]; [lia|]. rewrite Hto.
      exists to, opacity_1. split; [done|]. repeat split; lia || done.
    + destruct (Z.gtb_spec (Z.of_nat i) d) as [Hgt|Hle]; [|lia].
      destruct (at_index_Some sab (Z.of_nat i - 1)) as [to Hto]; [lia|]. rewrite Hto.
      exists to, opacity_1. split; [done|]. repeat split; lia || done.
Qed.



Lemma previewLoop_Normal (sab : list BoundsAndChild) (d newIndex lo hi : Z)
    (rest : list BoundsAndChild) (i : Z) (els : list Sortable) :
  (∀ (j : nat) (e : BoundsAndChild), rest !! j = Some e →
     is_Some (previewEntry sab d newIndex lo hi (i + Z.of_nat j) e)) →
  ∃ els', previewLoop sab d newIndex lo hi i rest els = (els', Normal).
Proof.
  revert i els. induction rest as [|e rest IH]; intros i els Hall; simpl; [by eexists|].
  destruct (Hall 0%nat e eq_refl) as [v Hv]. rewrite Z.add_0_r in Hv. rewrite Hv.
  apply IH. intros j e' Hj.
  replace (i + 1 + Z.of_nat j) with (i + Z.of_nat (S j)) by lia. by apply Hall.
Qed.


(** A candidate index that is neither [-1] nor an index of the snapshot
    makes the loop raise when it reaches the dragged entry. *)
Lemma previewLoop_throws (sab : list BoundsAndChild) (d : nat) (newIndex lo hi : Z)
    (k i : nat) (els : list Sortable) :
  at_index sab newIndex = None →
  (d < length sab)%nat → (i + k = d)%nat →
  (previewLoop sab (Z.of_nat d) newIndex lo hi (Z.of_nat i) (drop i sab) els).2
  = Throw TypeError.
Proof.
  intros Hnew Hd. revert i els. induction k as [|k IH]; intros i els Hik.
  - assert (i = d) as -> by lia.
    destruct (lookup_lt_is_Some_2 sab d Hd) as [e He].
    rewrite (drop_S _ _ _ He). simpl. unfold previewEntry.
    by rewrite Z.eqb_refl, Hnew.
  - destruct (lookup_lt_is_Some_2 sab i) as [e He]; [lia|].
    rewrite (drop_S _ _ _ He). simpl.
    assert (Hsome : is_Some (previewEntry sab (Z.of_nat d) newIndex lo hi (Z.of_nat i) e)).
    { unfold previewEntry.
      destruct (Z.eqb_spec (Z.of_nat i) (Z.of_nat d)); [lia|].
      destruct ((Z.of_nat i <? lo) || (Z.of_nat i >? hi)); [by eexists|].
      destruct (Z.ltb_spec (Z.of_nat i) (Z.of_nat d)); [|lia].
      destruct (at_index_Some sab (Z.of_nat i + 1)) as [to Hto]; [lia|].
      rewrite Hto. by eexists. }
    destruct Hsome as [v Hv]. rewrite Hv.
    replace (Z.of_nat i + 1) with (Z.of_nat (S i)) by lia.
    apply IH. lia.
Qed.

(** X18. With a dragged index inside the snapshot, [previewNewPositions]
    raises a [TypeError] for every candidate index below [-1] or beyond
    the last snapshot entry: reading [.bounds] of the missing entry
    fails when the loop reaches the dragged one. *)
Lemma previewNewPositions_throws (s : ManualSort) (d newIndex : Z) :
  draggingItemIndex s = Some d →
  0 <= d < Z.of_nat (length (sortablesAndBounds s)) →
  newIndex < -1 ∨ Z.of_nat (length (sortablesAndBounds s)) <= newIndex →
  (previewNewPositions s newIndex).2 = Throw TypeError.
Proof.
  intros Hdrag Hd Hn. unfold previewNewPositions. rewrite Hdrag.
  destruct (Z.eqb_spec newIndex (-1)) as [->|_]; [lia|].
  pose proof (previewLoop_throws (sortablesAndBounds s) (Z.to_nat d) newIndex
                (Z.min d newIndex) (Z.max d newIndex) (Z.to_nat d) 0 (children s)) as Hthrow.
  rewrite Z2Nat.id in Hthrow by lia. simpl in Hthrow.
  destruct (previewLoop _ _ _ _ _ _ _ _) as [els c]. simpl in *.
  apply Hthrow; [apply at_index_None; lia | lia | lia].
Qed.


(** ** The preview writes presentation properties only *)

Lemma differs_only_in_refl (names : list string) (el : Sortable) :
  differs_only_in names el el.
Proof. by repeat split. Qed.

Lemma differs_only_in_trans (names : list string) (a b c : Sortable) :
  differs_only_in names a b → differs_only_in names b c → differs_only_in names a c.
Proof.
  intros (Hd1 & Hs1 & Hk1) (Hd2 & Hs2 & Hk2). repeat split; [congruence..|].
  intros k Hk. by rewrite Hk2, Hk1.
Qed.

Lemma Forall2_differs_refl (names : list string) (els : list Sortable) :
  Forall2 (differs_only_in names) els els.
Proof. induction els; constructor; [apply differs_only_in_refl | done]. Qed.

Lemma Forall2_differs_trans (names : list string) (a b c : list Sortable) :
  Forall2 (differs_only_in names) a b → Forall2 (differs_only_in names) b c →
  Forall2 (differs_only_in names) a c.
Proof.
  intros Hab. revert c. induction Hab as [|x y a b Hxy Hab IH]; intros c Hbc.
  - by inversion Hbc.
  - inversion Hbc as [|? z ? c' Hyz Hbc']; subst. constructor; [|by apply IH].
    by eapply differs_only_in_trans.
Qed.

Lemma style_setProperty_differs (names : list string) (ref : nat)
    (name value : string) (els : list Sortable) :
  name ∈ names →
  Forall2 (differs_only_in names) els (style_setProperty ref name value els).
Proof.
  intros Hname. unfold style_setProperty. revert ref.
  induction els as [|el els IH]; intros ref; [constructor|].
  destruct ref as [|ref]; simpl.
  - constructor; [|apply Forall2_differs_refl].
    repeat split. intros k Hk. simpl. unfold setProperty.
    assert (name ≠ k) by (by intros ->).
    case_decide; by simplify_map_eq.
  - constructor; [apply differs_only_in_refl | apply IH].
Qed.

Lemma previewWrite_differs (e : BoundsAndChild) (v : option Z * option Z * Opacity)
    (els : list Sortable) :
  Forall2 (differs_only_in presentation) els (previewWrite e v els).
Proof.
  destruct v as [[tx ty] o]. unfold previewWrite.
  eapply Forall2_differs_trans; [|apply style_setProperty_differs].
  - eapply Forall2_differs_trans; apply style_setProperty_differs;
      unfold presentation; set_solver.
  - unfold presentation; set_solver.
Qed.

Lemma previewLoop_differs (sab : list BoundsAndChild) (d newIndex lo hi : Z)
    (rest : list BoundsAndChild) (i : Z) (els : list Sortable) :
  Forall2 (differs_only_in presentation) els
    (previewLoop sab d newIndex lo hi i rest els).1.
Proof.
  revert i els. induction rest as [|e rest IH]; intros i els; simpl.
  - apply Forall2_differs_refl.
  - destruct (previewEntry sab d newIndex lo hi i e) as [v|]; simpl.
    + eapply Forall2_differs_trans; [apply previewWrite_differs | apply IH].
    + apply Forall2_differs_refl.
Qed.

Lemma differs_only_in_outside_transition (names names' : list string)
    (el el' : Sortable) :
  (∀ k, k ∈ names → k ∈ names' ∨ transition_family k) →
  differs_only_in names el el' → differs_outside_transition names' el el'.
Proof.
  intros Hnames (Hdrag & Hdesc & Hstyle). split; [done|]. split; [done|].
  intros k Hk Hfamily. apply Hstyle. intros Hin.
  destruct (Hnames k Hin); done.
Qed.

Lemma Forall2_differs_outside_transition (names names' : list string)
    (els els' : list Sortable) :
  (∀ k, k ∈ names → k ∈ names' ∨ transition_family k) →
  Forall2 (differs_only_in names) els els' →
  Forall2 (differs_outside_transition names') els els'.
Proof.
  intros Hnames Hall. eapply Forall2_impl; [exact Hall|].
  intros el el'. by apply differs_only_in_outside_transition.
Qed.

Lemma presentation_names (k : string) :
  k ∈ presentation → k ∈ ["transform"; "opacity"] ∨ transition_family k.
Proof.
  unfold presentation. intros Hk.
  apply elem_of_cons in Hk as [->|Hk]; [by right|]. by left.
Qed.

(** C7. Whatever the snapshot, the dragged index and the candidate index,
    and whether it completes or raises, [previewNewPositions] leaves the
    snapshot as it was, keeps every child at its place in the child
    sequence with its [draggable] flag and its descendants, and changes
    at most these style properties: [transform], [opacity], and the
    [transition] family it writes through the shorthand [transition];
    the attributes, the gesture state and the event log are untouched. *)
Theorem previewNewPositions_frame (s : ManualSort) (newIndex : Z) :
  let s' := (previewNewPositions s newIndex).1 in
  sortablesAndBounds s' = sortablesAndBounds s ∧
  Forall2 (differs_outside_transition ["transform"; "opacity"])
    (children s) (children s') ∧
  attributes s' = attributes s ∧
  listening s' = listening s ∧
  draggingItemIndex s' = draggingItemIndex s ∧
  dropIndex s' = dropIndex s ∧
  dispatched s' = dispatched s.
Proof.
  assert (Hrefl : Forall2 (differs_outside_transition ["transform"; "opacity"])
                    (children s) (children s)).
  { eapply Forall2_differs_outside_transition; [apply presentation_names|].
    apply Forall2_differs_refl. }
  unfold previewNewPositions.
  destruct (draggingItemIndex s) as [d|] eqn:Hd; simpl.
  - destruct (newIndex =? -1); simpl.
    + rewrite Hd. by repeat split.
    + pose proof (previewLoop_differs (sortablesAndBounds s) d newIndex
                    (Z.min d newIndex) (Z.max d newIndex) (sortablesAndBounds s) 0
                    (children s)) as Hdiff.
      apply (Forall2_differs_outside_transition _ _ _ _ presentation_names) in Hdiff.
      destruct (previewLoop _ _ _ _ _ _ _ _) as [els c]. simpl in *.
      by repeat split.
  - rewrite Hd. by repeat split.
Qed.

(** ** Drag-handle configuration *)

Lemma truthy_spec (v : option string) :
  truthy v = true ↔ ∃ w, v = Some w ∧ w ≠ EmptyString.
Proof.
  destruct v as [[|a w]|]; simpl; split; try done.
  - intros (w & [= <-] & Hw). done.
  - intros _. by eexists.
  - intros (w & Hw & _). done.
Qed.

Lemma useDragHandles_spec (s : ManualSort) :
  useDragHandles s = true ↔
  ∃ v, getAttribute s "drag-handles" = Some v ∧ v ≠ EmptyString ∧ v ≠ "false".
Proof.
  unfold useDragHandles, strict_eq.
  rewrite andb_true_iff, negb_true_iff, bool_decide_eq_false, truthy_spec.
  split.
  - intros [(v & Hv & Hne) Hfalse]. exists v. repeat split; [done..|].
    intros ->. done.
  - intros (v & Hv & Hne & Hfalse). split; [by exists v|].
    rewrite Hv. by intros [= ->].
Qed.

Lemma createDragHandles_spec (s : ManualSort) :
  createDragHandles s = true ↔ getAttribute s "drag-handles" = Some "create".
Proof. unfold createDragHandles, strict_eq. apply bool_decide_eq_true. Qed.

Lemma createDragHandles_false (s : ManualSort) :
  createDragHandles s = false ↔ getAttribute s "drag-handles" ≠ Some "create".
Proof. unfold createDragHandles, strict_eq. apply bool_decide_eq_false. Qed.

Lemma useDragHandles_false (s : ManualSort) :
  getAttribute s "drag-handles" = None ∨
  getAttribute s "drag-handles" = Some EmptyString ∨
  getAttribute s "drag-handles" = Some "false" →
  useDragHandles s = false.
Proof.
  intros H. apply not_true_is_false. rewrite useDragHandles_spec.
  intros (v & Hv & Hne & Hfalse). rewrite Hv in H.
  destruct H as [H | [H | H]]; congruence.
Qed.

(** ** Drag handles *)

Lemma querySelector_None_handles (el : Sortable) :
  querySelector "drag-handle" el = None ↔ handles el = [].
Proof.
  unfold querySelector, handles. rewrite list_find_None.
  induction (descendants el) as [|d ds IH]; [done|].
  rewrite Forall_cons, filter_cons. case_decide; [|tauto].
  split; [tauto | done].
Qed.

Lemma list_find_alter_handle (f : SubElement → SubElement) (l : list SubElement)
    (k : nat) (h : SubElement) :
  (∀ x, has_class "drag-handle" (f x) ↔ has_class "drag-handle" x) →
  list_find (has_class "drag-handle") l = Some (k, h) →
  list_find (has_class "drag-handle") (alter f k l) = Some (k, f h) ∧
  ∃ rest, filter (has_class "drag-handle") (alter f k l) = f h :: rest ∧
          filter (has_class "drag-handle") l = h :: rest.
Proof.
  intros Hf. revert k. induction l as [|y l IH]; intros k Hfind; [done|].
  cbn in Hfind. destruct (decide (has_class "drag-handle" y)) as [Hy|Hy].
  - injection Hfind as <- <-. cbn.
    rewrite decide_True by (by apply Hf). split; [done|].
    exists (filter (has_class "drag-handle") l).
    rewrite ?filter_cons, !decide_True by (done || by apply Hf). done.
  - destruct (list_find (has_class "drag-handle") l) as [[k' h']|] eqn:Hl; [|done].
    injection Hfind as <- <-.
    destruct (IH k' eq_refl) as (Hfind' & rest & Hrest' & Hrest).
    cbn. rewrite decide_False by done. rewrite Hfind'. split; [done|].
    exists rest. rewrite ?filter_cons, ?decide_False by done. done.
Qed.

Lemma list_alter_fixed {A} (f : A → A) (l : list A) (k : nat) (x : A) :
  l !! k = Some x → f x = x → alter f k l = l.
Proof.
  intros Hk Hx. apply list_eq. intros j. rewrite list_lookup_alter.
  case_decide; [subst; by rewrite Hk; simpl; rewrite Hx | done].
Qed.

Lemma makeSortableDraggable_found (s : ManualSort) (el : Sortable)
    (k : nat) (h : SubElement) :
  useDragHandles s = true →
  querySelector "drag-handle" el = Some (k, h) →
  makeSortableDraggable s el =
    (set_descendants (alter (set_sub_draggable true) k (descendants el)) el, Normal).
Proof.
  intros Huse Hq. unfold makeSortableDraggable.
  rewrite Hq, Huse, andb_false_r. by rewrite Hq.
Qed.

Lemma makeSortableDraggable_created (s : ManualSort) (el : Sortable) :
  createDragHandles s = true → useDragHandles s = true →
  querySelector "drag-handle" el = None →
  makeSortableDraggable s el =
    (set_descendants (injected_handle :: descendants el) el, Normal).
Proof.
  intros Hcreate Huse Hq. unfold makeSortableDraggable.
  by rewrite Hcreate, Huse, Hq.
Qed.

Lemma makeSortableDraggable_create_item (s : ManualSort) (el : Sortable) :
  getAttribute s "drag-handles" = Some "create" →
  ∃ el', makeSortableDraggable s el = (el', Normal) ∧
         handle_set_up el el' ∧
         makeSortableDraggable s el' = (el', Normal).
Proof.
  intros Hattr.
  assert (Hcreate : createDragHandles s = true) by by apply createDragHandles_spec.
  assert (Huse : useDragHandles s = true).
  { apply useDragHandles_spec. by exists "create". }
  assert (Hkeeps : ∀ x, has_class "drag-handle" (set_sub_draggable true x) ↔
                        has_class "drag-handle" x) by done.
  destruct (querySelector "drag-handle" el) as [[k h]|] eqn:Hq.
  - rewrite (makeSortableDraggable_found s el k h Huse Hq).
    destruct (list_find_alter_handle (set_sub_draggable true) (descendants el) k h
                Hkeeps Hq) as (Hq' & rest & Hrest' & Hrest).
    eexists. split; [done|]. split.
    + unfold handle_set_up, handles. simpl. rewrite Hrest', Hrest.
      split; [done|]. split; [done|]. split; [intros [=]|].
      split; [|by eexists _, _].
      intros _. split; [by rewrite length_alter | done].
    + rewrite (makeSortableDraggable_found s
                 (set_descendants (alter (set_sub_draggable true) k (descendants el)) el)
                 k (set_sub_draggable true h) Huse Hq').
      simpl. f_equal. unfold set_descendants. simpl. f_equal.
      apply list_find_Some in Hq' as (Hk & _ & _).
      by eapply list_alter_fixed.
  - apply querySelector_None_handles in Hq as Hnone.
    rewrite (makeSortableDraggable_created s el Hcreate Huse Hq).
    eexists. split; [done|]. split.
    + assert (Hone : filter (has_class "drag-handle") (injected_handle :: descendants el)
                     = [injected_handle]).
      { rewrite filter_cons, decide_True by (by constructor).
        unfold handles in Hnone. by rewrite Hnone. }
      unfold handle_set_up, handles.
      change (descendants (set_descendants ?d el)) with d. rewrite Hone.
      split; [done|]. split; [done|]. split; [done|].
      split; [by intros [] | by eexists _, _].
    + by rewrite (makeSortableDraggable_found s
                    (set_descendants (injected_handle :: descendants el) el)
                    0 injected_handle Huse).
Qed.

Lemma forEach_makeSortableDraggable_Normal (s : ManualSort) (R : Sortable → Sortable → Prop)
    (els : list Sortable) :
  (∀ el, el ∈ els → ∃ el', makeSortableDraggable s el = (el', Normal) ∧ R el el') →
  ∃ els', forEach_makeSortableDraggable s els = (els', Normal) ∧ Forall2 R els els'.
Proof.
  induction els as [|el els IH]; intros Hall; simpl.
  - eexists. split; [done | constructor].
  - destruct (Hall el) as (el' & Hel' & HR); [by left|]. rewrite Hel'.
    destruct IH as (els' & Hels' & HRs).
    { intros x Hx. apply Hall. by right. }
    rewrite Hels'. eexists. split; [done | by constructor].
Qed.

(** C8. With [drag-handles="create"], making the children of a list
    draggable completes and leaves each child with its handle set up: a
    child that had no handle holds exactly one, the injected one; a child
    that had handles receives none; the first handle of each child is
    draggable and the child's own [draggable] flag is what it was; and
    making the children draggable again changes nothing. *)
Theorem makeAllSortablesDraggable_create (s : ManualSort) :
  getAttribute s "drag-handles" = Some "create" →
  ∃ s', makeAllSortablesDraggable s = (s', Normal) ∧
        Forall2 handle_set_up (children s) (children s') ∧
        makeAllSortablesDraggable s' = (s', Normal).
Proof.
  intros Hattr. unfold makeAllSortablesDraggable.
  destruct (forEach_makeSortableDraggable_Normal s
              (fun el el' => handle_set_up el el' ∧
                             makeSortableDraggable s el' = (el', Normal))
              (children s)) as (els' & Hrun & Hall).
  { intros el _. by apply makeSortableDraggable_create_item. }
  rewrite Hrun. eexists. split; [done|]. split.
  - simpl. eapply Forall2_impl; [exact Hall|]. by intros el el' [H _].
  - simpl.
    destruct (forEach_makeSortableDraggable_Normal (set_children els' s)
                (fun el el' => el' = el) els') as (els'' & Hrun' & Hsame).
    { intros el' Hin. exists el'. split; [|done].
      apply list_elem_of_lookup_1 in Hin as [i Hi].
      destruct (Forall2_lookup_r _ _ _ i el' Hall Hi) as (el & _ & _ & Hfix).
      exact Hfix. }
    rewrite Hrun'. f_equal. unfold set_children. simpl. f_equal.
    clear -Hsame. induction Hsame; [done | by subst; f_equal].
Qed.

Lemma makeSortableDraggable_throws (s : ManualSort) (el : Sortable) :
  useDragHandles s = true → createDragHandles s = false →
  querySelector "drag-handle" el = None →
  makeSortableDraggable s el = (el, Throw TypeError).
Proof.
  intros Huse Hcreate Hq. unfold makeSortableDraggable.
  rewrite Hcreate, Huse. simpl. by rewrite Hq.
Qed.

Lemma makeSortableDraggable_whole_item (s : ManualSort) (el : Sortable) :
  useDragHandles s = false → createDragHandles s = false →
  makeSortableDraggable s el = (set_draggable true el, Normal).
Proof.
  intros Huse Hcreate. unfold makeSortableDraggable. by rewrite Hcreate, Huse.
Qed.

(** C9. With handles in use and not created, [makeSortableDraggable] on a
    child without a [.drag-handle] descendant raises a [TypeError] and
    leaves the child as it was, nothing marked draggable; on a child that
    has one it completes, and so does the pass over a list in which
    every child has one. *)
Theorem makeSortableDraggable_missing_handle (s : ManualSort) :
  useDragHandles s = true →
  createDragHandles s = false →
  (∀ el, querySelector "drag-handle" el = None →
         makeSortableDraggable s el = (el, Throw TypeError)) ∧
  (∀ el, is_Some (querySelector "drag-handle" el) →
         ∃ el', makeSortableDraggable s el = (el', Normal)) ∧
  ((∀ el, el ∈ children s → is_Some (querySelector "drag-handle" el)) →
   ∃ s', makeAllSortablesDraggable s = (s', Normal)).
Proof.
  intros Huse Hcreate.
  assert (Hfound : ∀ el, is_Some (querySelector "drag-handle" el) →
                         ∃ el', makeSortableDraggable s el = (el', Normal)).
  { intros el [[k h] Hq]. rewrite (makeSortableDraggable_found s el k h Huse Hq).
    by eexists. }
  split; [intros el; by apply makeSortableDraggable_throws|].
  split; [done|].
  intros Hall. unfold makeAllSortablesDraggable.
  destruct (forEach_makeSortableDraggable_Normal s (fun _ _ => True) (children s))
    as (els' & Hrun & _).
  { intros el Hel. destruct (Hfound el (Hall el Hel)) as [el' Hel']. by exists el'. }
  rewrite Hrun. by eexists.
Qed.

Lemma makeSortableDraggable_config (s1 s2 : ManualSort) (el : Sortable) :
  useDragHandles s1 = useDragHandles s2 →
  createDragHandles s1 = createDragHandles s2 →
  makeSortableDraggable s1 el = makeSortableDraggable s2 el.
Proof. intros Huse Hcreate. unfold makeSortableDraggable. by rewrite Huse, Hcreate. Qed.

(** C10. [useDragHandles] holds exactly when the [drag-handles] attribute
    is present, not empty and not ["false"]; [createDragHandles] holds
    exactly for the value ["create"].  Hence any other non-empty value
    acts as ["true"] does: no handle is created and the child must bring
    one for the set-up to complete; and the empty value acts as an absent
    attribute does: the child itself is made draggable. *)
Theorem drag_handles_values (s : ManualSort) :
  (useDragHandles s = true ↔
     ∃ v, getAttribute s "drag-handles" = Some v ∧ v ≠ EmptyString ∧ v ≠ "false") ∧
  (createDragHandles s = true ↔ getAttribute s "drag-handles" = Some "create") ∧
  (∀ v el,
     getAttribute s "drag-handles" = Some v →
     v ≠ EmptyString → v ≠ "false" → v ≠ "create" →
     makeSortableDraggable s el =
       makeSortableDraggable (setAttribute "drag-handles" "true" s) el ∧
     length (descendants (makeSortableDraggable s el).1) = length (descendants el) ∧
     ((makeSortableDraggable s el).2 = Normal ↔
        is_Some (querySelector "drag-handle" el))) ∧
  (∀ el,
     getAttribute s "drag-handles" = Some EmptyString →
     makeSortableDraggable s el =
       makeSortableDraggable (removeAttribute "drag-handles" s) el ∧
     makeSortableDraggable s el = (set_draggable true el, Normal)).
Proof.
  split; [apply useDragHandles_spec|]. split; [apply createDragHandles_spec|]. split.
  - intros v el Hv Hne Hfalse Hcreate.
    assert (Huse : useDragHandles s = true) by (apply useDragHandles_spec; by exists v).
    assert (Hnocreate : createDragHandles s = false).
    { apply createDragHandles_false. rewrite Hv. by intros [= ->]. }
    split; [|split].
    + apply makeSortableDraggable_config.
      * rewrite Huse. symmetry. apply useDragHandles_spec. exists "true".
        unfold getAttribute, setAttribute. simpl. by rewrite lookup_insert_eq.
      * rewrite Hnocreate. symmetry. apply createDragHandles_false.
        unfold getAttribute, setAttribute. simpl. by rewrite lookup_insert_eq.
    + destruct (querySelector "drag-handle" el) as [[k h]|] eqn:Hq.
      * rewrite (makeSortableDraggable_found s el k h Huse Hq). simpl.
        by rewrite length_alter.
      * by rewrite (makeSortableDraggable_throws s el Huse Hnocreate Hq).
    + destruct (querySelector "drag-handle" el) as [[k h]|] eqn:Hq.
      * rewrite (makeSortableDraggable_found s el k h Huse Hq). simpl.
        split; [by eexists | done].
      * rewrite (makeSortableDraggable_throws s el Huse Hnocreate Hq). simpl.
        split; [done | by intros [? [=]]].
  - intros el Hv.
    assert (Huse : useDragHandles s = false) by (apply useDragHandles_false; auto).
    assert (Hnocreate : createDragHandles s = false).
    { apply createDragHandles_false. by rewrite Hv. }
    split; [|by apply makeSortableDraggable_whole_item].
    apply makeSortableDraggable_config.
    + rewrite Huse. symmetry. apply useDragHandles_false. left.
      unfold getAttribute, removeAttribute. simpl. by rewrite lookup_delete_eq.
    + rewrite Hnocreate. symmetry. apply createDragHandles_false.
      unfold getAttribute, removeAttribute. simpl. by rewrite lookup_delete_eq.
Qed.

(** ** The snapshot taken at gesture start *)

Section SnapshotProperties.

Variable getBoundingClientRect : list Sortable → nat → DOMRect.

(** Every snapshot [handleDragstart] takes refers to existing children,
    each once. *)
Lemma handleDragstart_snapshot_wf (s : ManualSort) (e : DragEvent) :
  snapshot_wf (handleDragstart getBoundingClientRect s e).
Proof.
  unfold snapshot_wf, handleDragstart. simpl. rewrite map_map. simpl.
  rewrite map_id. split.
  - apply sortablesInVisualOrder_NoDup.
  - apply Forall_forall. intros b Hb.
    apply list_elem_of_fmap in Hb as (c & -> & Hc). simpl.
    by apply sortablesInVisualOrder_elem in Hc.
Qed.

End SnapshotProperties.

(** * The properties at concrete lists *)

(** The scenario of four stacked items [A; B; C; D]: the gesture starts
    on [C], the pointer moves into the box of [A], the gesture ends. *)
Example scenario_hit_test : findSortableIndex list4_dragging 5 5 = 0.
Proof. vm_compute. reflexivity. Qed.

Example scenario_emitted_order :
  dispatched (handleDragend block_layout list4_previewed (drag_at 5 5))
  = [mkCustomEvent "sort" [2; 0; 1; 3]%nat].
Proof. vm_compute. reflexivity. Qed.

Example scenario_preview_styles :
  map (fun el => (style el !! "transform", style el !! "opacity")) (children list4_previewed)
  = [(Some "translate(0px, 20px)", Some "1");
     (Some "translate(0px, 20px)", Some "1");
     (Some "translate(0px, -40px)", Some "0.1");
     (Some "translate(0px, 0px)", Some "0.7")].
Proof. vm_compute. reflexivity. Qed.

Example scenario_create_handles :
  makeAllSortablesDraggable list2_create
  = (set_children [mkSortable ∅ false [injected_handle];
                   mkSortable ∅ false [injected_handle]] list2_create, Normal).
Proof. vm_compute. reflexivity. Qed.

(** ** Instances of the theorems *)

Lemma list4_dragging_length : length (sortablesAndBounds list4_dragging) = 4%nat.
Proof. vm_compute. reflexivity. Defined.


Lemma list4_dragging_non_overlapping :
  non_overlapping (sortablesAndBounds list4_dragging).
Proof.
  intros i j a b x y Hi Hj Ha Hb. unfold contains in *.
  destruct i as [|[|[|[|i]]]]; vm_compute in Hi; try discriminate;
    injection Hi as <-;
    destruct j as [|[|[|[|j]]]]; vm_compute in Hj; try discriminate;
    injection Hj as <-; simpl in *; lia.
Defined.



Lemma findSortableIndex_first_hit_witness :
  findSortableIndex list4_dragging 5 45 = 2 ∧
  ∀ (j : nat) (e' : BoundsAndChild),
    sortablesAndBounds list4_dragging !! j = Some e' → contains (bounds e') 5 45 → j = 2%nat.
Proof.
  destruct (findSortableIndex_first_hit list4_dragging 5 45)
    as [[Hnone _] | (i & e & Hi & _ & _ & _ & Hunique)].
  - vm_compute in Hnone. discriminate.
  - assert (Hhit : findSortableIndex list4_dragging 5 45 = 2)
      by (vm_compute; reflexivity).
    rewrite Hhit in Hi. assert (i = 2%nat) as -> by lia.
    split; [reflexivity|].
    apply Hunique. exact list4_dragging_non_overlapping.
Defined.

Lemma sortablesInVisualOrder_stable_sort_witness :
  StronglySorted
    (fun a b => top (block_layout (children list4_previewed) a)
                < top (block_layout (children list4_previewed) b))
    (sortablesInVisualOrder block_layout list4_previewed).
Proof.
  apply (sortablesInVisualOrder_stable_sort block_layout list4_previewed).
  apply (bool_decide_unpack _). vm_compute. exact I.
Defined.

Lemma handleDragend_emits_then_resets_witness :
  ∃ (payload : list nat) (writes : list Effect),
    handleDragend_effects block_layout list4_previewed (drag_at 5 5)
    = DispatchEvent (mkCustomEvent "sort" payload) :: writes ∧
    Forall is_SetProperty writes ∧
    perform_all (handleDragend_effects block_layout list4_previewed (drag_at 5 5))
      list4_previewed
    = handleDragend block_layout list4_previewed (drag_at 5 5) ∧
    dispatched (handleDragend block_layout list4_previewed (drag_at 5 5))
    = dispatched list4_previewed ++ [mkCustomEvent "sort" payload] ∧
    Permutation (sortables list4_previewed) payload ∧
    StronglySorted (visually_before (block_layout (children list4_previewed))) payload ∧
    (∀ t l : Z,
       filter (at_corner (block_layout (children list4_previewed)) t l) payload
       = filter (at_corner (block_layout (children list4_previewed)) t l)
           (sortables list4_previewed)) ∧
    (∀ snapshot : list BoundsAndChild,
       dispatched (handleDragend block_layout
                     (set_sortablesAndBounds snapshot list4_previewed) (drag_at 5 5))
       = dispatched list4_previewed ++ [mkCustomEvent "sort" payload]) ∧
    (∀ (ref : nat) (el' : Sortable),
       children (handleDragend block_layout list4_previewed (drag_at 5 5)) !! ref
       = Some el' →
       ∃ i : nat,
         payload !! i = Some ref ∧
         style el' !! "transform" = None ∧
         style el' !! "opacity" = None ∧
         style el' !! "transition-duration" = Some "0ms" ∧
         style el' !! "order" = Some (toString (Z.of_nat i))).
Proof.
  apply (handleDragend_emits_then_resets block_layout list4_previewed (drag_at 5 5)).
  vm_compute. discriminate.
Defined.

(** In a flex column the items stay where the preview showed them once
    [order] is set, so a second reset finds the same visual order. *)
Lemma resetPreviewPositions_resets_witness :
  resetPreviewPositions flex_column_layout
    (resetPreviewPositions flex_column_layout list4_previewed)
  = resetPreviewPositions flex_column_layout list4_previewed.
Proof.
  apply (resetPreviewPositions_resets flex_column_layout list4_previewed).
  vm_compute. reflexivity.
Defined.

(** C6, as stated, in a block layout, which ignores [order]: the first
    reset numbers the items in the previewed order [C; A; B; D] and
    clears the transforms, the items fall back into DOM order, and the
    second reset renumbers them, so the state changes. *)
Lemma resetPreviewPositions_twice_block_layout :
  let s1 := resetPreviewPositions block_layout list4_previewed in
  let s2 := resetPreviewPositions block_layout s1 in
  sortablesInVisualOrder block_layout list4_previewed = [2; 0; 1; 3]%nat ∧
  sortablesInVisualOrder block_layout s1 = [0; 1; 2; 3]%nat ∧
  s2 ≠ s1.
Proof.
  intros s1 s2.
  split; [vm_compute; reflexivity|]. split; [vm_compute; reflexivity|].
  intros Heq.
  apply (f_equal (fun s => (style <$> children s !! 2%nat) ≫= (.!! "order"))) in Heq.
  vm_compute in Heq. discriminate.
Qed.

Lemma makeAllSortablesDraggable_create_witness :
  ∃ s', makeAllSortablesDraggable list2_create = (s', Normal) ∧
        Forall2 handle_set_up (children list2_create) (children s') ∧
        makeAllSortablesDraggable s' = (s', Normal).
Proof.
  apply (makeAllSortablesDraggable_create list2_create).
  vm_compute. reflexivity.
Defined.

Lemma makeSortableDraggable_missing_handle_witness :
  makeSortableDraggable list2_yes li = (li, Throw TypeError) ∧
  ∃ el', makeSortableDraggable list2_yes li_with_handle = (el', Normal).
Proof.
  destruct (makeSortableDraggable_missing_handle list2_yes) as (Hmissing & Hfound & _).
  - vm_compute. reflexivity.
  - vm_compute. reflexivity.
  - split.
    + apply Hmissing. vm_compute. reflexivity.
    + apply Hfound. vm_compute. by eexists.
Defined.

Lemma drag_handles_values_witness :
  makeSortableDraggable list2_yes li_with_handle =
    makeSortableDraggable (setAttribute "drag-handles" "true" list2_yes) li_with_handle ∧
  length (descendants (makeSortableDraggable list2_yes li_with_handle).1)
    = length (descendants li_with_handle) ∧
  ((makeSortableDraggable list2_yes li_with_handle).2 = Normal ↔
     is_Some (querySelector "drag-handle" li_with_handle)).
Proof.
  destruct (drag_handles_values list2_yes) as (_ & _ & Hother & _).
  apply (Hother "yes" li_with_handle); [vm_compute; reflexivity | done..].
Defined.

(** * Further properties of the gesture handlers *)

Lemma findIndex_range {A} (p : A → bool) (l : list A) :
  findIndex p l = -1 ∨ 0 <= findIndex p l < Z.of_nat (length l).
Proof.
  unfold findIndex.
  destruct (findIndex_from_spec p l 0) as [[Hr _] | (i & x & Hr & Hi & _)]; [by left|].
  right. apply lookup_lt_Some in Hi. lia.
Qed.

Lemma indexOf_spec (x : nat) (l : list nat) :
  (indexOf x l = -1 ∧ x ∉ l) ∨
  (∃ i : nat, indexOf x l = Z.of_nat i ∧ l !! i = Some x).
Proof.
  unfold indexOf, findIndex.
  destruct (findIndex_from_spec (Nat.eqb x) l 0)
    as [[Hr Hall] | (i & y & Hr & Hi & Hy & _)].
  - left. split; [done|]. intros Hx. specialize (Hall x Hx).
    by rewrite Nat.eqb_refl in Hall.
  - right. exists i. apply Nat.eqb_eq in Hy as <-. split; [lia | done].
Qed.

Lemma StronglySorted_map {A B} (f : A → B) (R : B → B → Prop) (l : list A) :
  StronglySorted (fun a b => R (f a) (f b)) l → StronglySorted R (map f l).
Proof.
  induction 1 as [|x l Hl IH Hx]; simpl; constructor; [done|].
  apply Forall_forall. intros b Hb.
  apply list_elem_of_fmap in Hb as (a & -> & Ha).
  rewrite Forall_forall in Hx. by apply Hx.
Qed.

Lemma previewNewPositions_Normal (s : ManualSort) (d newIndex : Z) :
  draggingItemIndex s = Some d →
  0 <= d < Z.of_nat (length (sortablesAndBounds s)) →
  0 <= newIndex < Z.of_nat (length (sortablesAndBounds s)) →
  ∃ s', previewNewPositions s newIndex = (s', Normal).
Proof.
  intros Hdrag Hd Hn. unfold previewNewPositions. rewrite Hdrag.
  destruct (Z.eqb_spec newIndex (-1)) as [->|_]; [lia|].
  destruct (previewLoop_Normal (sortablesAndBounds s) d newIndex
              (Z.min d newIndex) (Z.max d newIndex) (sortablesAndBounds s) 0 (children s))
    as [els' Hrun].
  { intros j e Hj. destruct (previewEntry_in_range _ d newIndex j e Hd Hn Hj)
      as (to & o & Hv & _). rewrite Z.add_0_l, Hv. by eexists. }
  rewrite Hrun. by eexists.
Qed.

(** What [previewNewPositions] keeps of the component, in the form the
    handlers' proofs use. *)
Lemma previewNewPositions_keeps (s : ManualSort) (newIndex : Z) :
  sortablesAndBounds (previewNewPositions s newIndex).1 = sortablesAndBounds s ∧
  draggingItemIndex (previewNewPositions s newIndex).1 = draggingItemIndex s ∧
  dropIndex (previewNewPositions s newIndex).1 = dropIndex s ∧
  dispatched (previewNewPositions s newIndex).1 = dispatched s ∧
  listening (previewNewPositions s newIndex).1 = listening s ∧
  attributes (previewNewPositions s newIndex).1 = attributes s ∧
  length (children (previewNewPositions s newIndex).1) = length (children s).
Proof.
  unfold previewNewPositions.
  destruct (draggingItemIndex s) as [d|] eqn:Hd; simpl; [|by rewrite Hd].
  destruct (newIndex =? -1); simpl; [by rewrite Hd|].
  pose proof (previewLoop_differs (sortablesAndBounds s) d newIndex
                (Z.min d newIndex) (Z.max d newIndex) (sortablesAndBounds s) 0
                (children s)) as Hdiff.
  destruct (previewLoop _ _ _ _ _ _ _ _) as [els c]. simpl in *.
  apply Forall2_length in Hdiff. by rewrite Hd.
Qed.

Lemma findSortableIndex_range (s : ManualSort) (x y : Z) :
  findSortableIndex s x y = -1 ∨
  0 <= findSortableIndex s x y < Z.of_nat (length (sortablesAndBounds s)).
Proof. apply findIndex_range. Qed.

(** The state a gesture leaves the handlers in: a well-formed snapshot
    and a dragged index that is [-1] or an index of the snapshot. *)
Lemma handleDragover_in_gesture (s : ManualSort) (e : DragEvent) (d : Z) :
  draggingItemIndex s = Some d →
  -1 <= d < Z.of_nat (length (sortablesAndBounds s)) →
  ∃ s', handleDragover s e = (s', (if decide (d = -1) then e else preventDefault e), Normal) ∧
        sortablesAndBounds s' = sortablesAndBounds s ∧
        draggingItemIndex s' = draggingItemIndex s ∧
        dispatched s' = dispatched s ∧
        length (children s') = length (children s).
Proof.
  intros Hdrag Hd. unfold handleDragover. rewrite Hdrag.
  destruct (decide (d = -1)) as [->|Hne].
  { rewrite bool_decide_eq_true_2 by done. by exists s. }
  rewrite bool_decide_eq_false_2 by (by intros [= ?]).
  destruct (loose_eq (dropIndex s) (findSortableIndex s (clientX e) (clientY e))).
  { by exists s. }
  pose proof (previewNewPositions_keeps s (findSortableIndex s (clientX e) (clientY e)))
    as (Hsab & Hdr & _ & Hev & _ & _ & Hlen).
  destruct (findSortableIndex_range s (clientX e) (clientY e)) as [Hnone | Hin].
  - rewrite Hnone.
    assert (Hskip : previewNewPositions s (-1) = (s, Normal)).
    { unfold previewNewPositions. by rewrite Hdrag. }
    rewrite Hskip. eexists. split; [done|]. simpl. by rewrite Hdrag.
  - destruct (previewNewPositions_Normal s d _ Hdrag ltac:(lia) Hin) as [s' Hs'].
    rewrite Hs' in *. simpl in *. eexists. split; [done|]. simpl.
    by rewrite Hsab, Hdr, Hev, Hlen.
Qed.

Section GestureProperties.

Variable getBoundingClientRect : list Sortable → nat → DOMRect.

Lemma handleDragstart_dragging_range (s : ManualSort) (e : DragEvent) :
  ∃ d, draggingItemIndex (handleDragstart getBoundingClientRect s e) = Some d ∧
       -1 <= d < Z.of_nat (length (sortablesAndBounds
                                     (handleDragstart getBoundingClientRect s e))).
Proof.
  unfold handleDragstart. simpl. rewrite length_map. eexists. split; [done|].
  destruct (target_child e) as [c|]; [|lia].
  destruct (indexOf_spec c (sortablesInVisualOrder getBoundingClientRect s))
    as [[-> _] | (i & -> & Hi)]; [lia|].
  apply lookup_lt_Some in Hi. lia.
Qed.

Lemma handleDragstart_resolved_index (s : ManualSort) (e : DragEvent) :
  let s' := handleDragstart getBoundingClientRect s e in
  (∀ c : nat, target_child e = Some c → (c < length (children s))%nat →
     ∃ d : nat,
       draggingItemIndex s' = Some (Z.of_nat d) ∧
       sortablesInVisualOrder getBoundingClientRect s !! d = Some c ∧
       sortablesAndBounds s' !! d
       = Some (mkBoundsAndChild (getBoundingClientRect (children s) c) c)) ∧
  (∀ c : nat, target_child e = Some c → (length (children s) <= c)%nat →
     draggingItemIndex s' = Some (-1)) ∧
  (target_child e = None → draggingItemIndex s' = Some (-1)).
Proof.
  intros s'. unfold s', handleDragstart. simpl. split; [|split].
  - intros c -> Hc.
    destruct (indexOf_spec c (sortablesInVisualOrder getBoundingClientRect s))
      as [[_ Hnotin] | (i & Hi & Hlook)].
    + exfalso. apply Hnotin. by apply sortablesInVisualOrder_elem.
    + exists i. rewrite Hi. split; [done|]. split; [done|].
      by rewrite list_lookup_fmap, Hlook.
  - intros c -> Hc.
    destruct (indexOf_spec c (sortablesInVisualOrder getBoundingClientRect s))
      as [[-> _] | (i & _ & Hlook)]; [done|].
    apply list_elem_of_lookup_2, sortablesInVisualOrder_elem in Hlook. lia.
  - by intros ->.
Qed.

(** X1. Gesture start resolves the dragged child from the event: the
    target itself, or the target's [offsetParent] when drag handles are
    in use.  For a target that is not [null] and an event that carries a
    [dataTransfer]: when the resolved element is a child of the list the
    handler completes, the dragged index is that child's position in the
    visual order and the snapshot entry at that index is the child with
    its current box; when it is an element that is not a child the
    handler completes with dragged index [-1]; when it is [null] the
    handler writes dragged index [-1] and the snapshot and then raises a
    [TypeError]. *)
Theorem handleDragstart_index (s : ManualSort) (e : DragstartEvent) :
  target e ≠ null →
  dataTransfer e = true →
  let resolved := if useDragHandles s then target_offsetParent e else target e in
  let s' := (handleDragstart_event getBoundingClientRect s e).1 in
  let completion := (handleDragstart_event getBoundingClientRect s e).2 in
  map child (sortablesAndBounds s') = sortablesInVisualOrder getBoundingClientRect s ∧
  (∀ c : nat, resolved = child_at c → (c < length (children s))%nat →
     completion = Normal ∧
     ∃ d : nat,
       draggingItemIndex s' = Some (Z.of_nat d) ∧
       sortablesInVisualOrder getBoundingClientRect s !! d = Some c ∧
       sortablesAndBounds s' !! d
       = Some (mkBoundsAndChild (getBoundingClientRect (children s) c) c)) ∧
  (resolved = other_element →
     completion = Normal ∧ draggingItemIndex s' = Some (-1)) ∧
  (resolved = null →
     completion = Throw TypeError ∧ draggingItemIndex s' = Some (-1)).
Proof.
  intros Htarget Hdata resolved s' completion.
  assert (Hrun : handleDragstart_event getBoundingClientRect s e
                 = (handleDragstart getBoundingClientRect s
                      (mkDragEvent (as_child resolved) 0 0 false),
                    match resolved with null => Throw TypeError | _ => Normal end)).
  { unfold handleDragstart_event, resolved. rewrite Hdata.
    destruct (useDragHandles s); [|by destruct (target e)].
    destruct (target e); [| |done]; by destruct (target_offsetParent e). }
  unfold s', completion. rewrite Hrun. cbn [fst snd].
  split.
  { unfold handleDragstart. simpl. rewrite map_map. simpl. apply map_id. }
  split; [|split].
  - intros c Hc Hlt. rewrite Hc. split; [done|].
    by apply (handleDragstart_resolved_index s (mkDragEvent (Some c) 0 0 false)).
  - intros Hother. by rewrite Hother.
  - intros Hnull. by rewrite Hnull.
Qed.

(** X2. The snapshot taken at gesture start lists every child once, in
    visual order, each with the box it has at that moment, so the
    recorded boxes ascend by (top, then left); taking it changes neither
    the children nor the drop index, which keeps the value the previous
    gesture left, nor the event log. *)
Theorem handleDragstart_snapshot (s : ManualSort) (e : DragEvent) :
  let s' := handleDragstart getBoundingClientRect s e in
  map child (sortablesAndBounds s') = sortablesInVisualOrder getBoundingClientRect s ∧
  Permutation (sortables s) (map child (sortablesAndBounds s')) ∧
  Forall (fun b => bounds b = getBoundingClientRect (children s) (child b))
    (sortablesAndBounds s') ∧
  StronglySorted recorded_before (sortablesAndBounds s') ∧
  children s' = children s ∧
  dropIndex s' = dropIndex s ∧
  dispatched s' = dispatched s.
Proof.
  intros s'. unfold s', handleDragstart. simpl.
  assert (Hchildren :
    map child (map (fun c => mkBoundsAndChild (getBoundingClientRect (children s) c) c)
                 (sortablesInVisualOrder getBoundingClientRect s))
    = sortablesInVisualOrder getBoundingClientRect s).
  { rewrite map_map. simpl. apply map_id. }
  split; [done|]. split.
  { rewrite Hchildren. apply sortablesInVisualOrder_Permutation. }
  split.
  { apply Forall_forall. intros b Hb. by apply list_elem_of_fmap in Hb as (c & -> & _). }
  split; [|done].
  apply StronglySorted_map. simpl. unfold sortablesInVisualOrder.
  eapply StronglySorted_weaken; [|apply sort_StronglySorted].
  - intros a b Hab. unfold recorded_before. simpl. by apply compareBounds_le.
  - intros a b. rewrite !compareBounds_le. lia.
  - intros a b c. rewrite !compareBounds_le. lia.
Qed.

Lemma forEach_handleDragover_in_gesture (moves : list DragEvent) (s : ManualSort) (d : Z) :
  draggingItemIndex s = Some d →
  -1 <= d < Z.of_nat (length (sortablesAndBounds s)) →
  ∃ s', forEach_handleDragover s moves = (s', Normal) ∧
        sortablesAndBounds s' = sortablesAndBounds s ∧
        draggingItemIndex s' = draggingItemIndex s ∧
        dispatched s' = dispatched s ∧
        length (children s') = length (children s).
Proof.
  revert s. induction moves as [|e moves IH]; intros s Hdrag Hd; simpl.
  - by exists s.
  - destruct (handleDragover_in_gesture s e d Hdrag Hd)
      as (s1 & Hrun & Hsab & Hdr & Hev & Hlen).
    rewrite Hrun.
    destruct (IH s1) as (s' & Hrun' & Hsab' & Hdr' & Hev' & Hlen').
    { by rewrite Hdr. }
    { by rewrite Hsab. }
    exists s'. split; [done|]. by rewrite Hsab', Hdr', Hev', Hlen'.
Qed.

(** X3. After a gesture start, any run of gesture-move events completes
    without an exception: the dragged index is [-1] or an index of the
    snapshot and the hit test yields [-1] or an index of the snapshot, so
    the unguarded array reads of [previewNewPositions] stay in range.
    The moves leave the snapshot and the dragged index as the start set
    them, keep the number of children, and dispatch no event. *)
Theorem gesture_moves_never_throw (s : ManualSort) (e : DragEvent)
    (moves : list DragEvent) :
  let s0 := handleDragstart getBoundingClientRect s e in
  ∃ s', forEach_handleDragover s0 moves = (s', Normal) ∧
        sortablesAndBounds s' = sortablesAndBounds s0 ∧
        draggingItemIndex s' = draggingItemIndex s0 ∧
        dispatched s' = dispatched s ∧
        length (children s') = length (children s).
Proof.
  intros s0. destruct (handleDragstart_dragging_range s e) as (d & Hdrag & Hd).
  destruct (forEach_handleDragover_in_gesture moves s0 d Hdrag Hd)
    as (s' & Hrun & Hsab & Hdr & Hev & Hlen).
  exists s'. by rewrite Hrun, Hsab, Hdr, Hev, Hlen.
Qed.

End GestureProperties.


(** X5. While a gesture is on and the pointer lies in none of the
    snapshot's boxes, a gesture-move event cancels the default action,
    sets the drop index to [-1] and renders nothing: the children, and
    with them whatever preview was on screen, stay as they were. *)
Theorem handleDragover_outside_boxes (s : ManualSort) (e : DragEvent) :
  draggingItemIndex s ≠ Some (-1) →
  (∀ b, b ∈ sortablesAndBounds s → ¬ contains (bounds b) (clientX e) (clientY e)) →
  ∃ s', handleDragover s e = (s', preventDefault e, Normal) ∧
        children s' = children s ∧
        dropIndex s' = Some (-1) ∧
        sortablesAndBounds s' = sortablesAndBounds s ∧
        draggingItemIndex s' = draggingItemIndex s.
Proof.
  intros Hd Hout.
  assert (Hhit : findSortableIndex s (clientX e) (clientY e) = -1).
  { unfold findSortableIndex, findIndex.
    match goal with |- findIndex_from ?p _ _ = _ =>
      destruct (findIndex_from_spec p (sortablesAndBounds s) 0)
        as [[Hr _] | (i & b & _ & Hi & Hp & _)] end; [done|].
    exfalso. apply (Hout b); [by eapply list_elem_of_lookup_2|].
    unfold contains. rewrite !andb_true_iff, !Z.geb_le, !Z.leb_le in Hp. lia. }
  assert (Hskip : previewNewPositions s (-1) = (s, Normal)).
  { unfold previewNewPositions. by destruct (draggingItemIndex s). }
  unfold handleDragover. rewrite bool_decide_eq_false_2 by done. rewrite Hhit.
  destruct (dropIndex s) as [a|] eqn:Hdrop; simpl.
  - destruct (Z.eqb_spec a (-1)) as [->|Hne].
    + exists s. by rewrite Hdrop.
    + rewrite Hskip. by eexists.
  - rewrite Hskip. by eexists.
Qed.

Lemma resetChild_differs (i ref : nat) (els : list Sortable) :
  Forall2 (differs_only_in reset_properties) els (resetChild i ref els).
Proof.
  unfold resetChild.
  do 3 (eapply Forall2_differs_trans;
        [|apply style_setProperty_differs; unfold reset_properties; set_solver]).
  apply style_setProperty_differs. unfold reset_properties. set_solver.
Qed.

Lemma forEach_resetChild_differs (arr : list nat) (i : nat) (els : list Sortable) :
  Forall2 (differs_only_in reset_properties) els (forEach_resetChild i arr els).
Proof.
  revert i els. induction arr as [|ref arr IH]; intros i els; simpl.
  - apply Forall2_differs_refl.
  - eapply Forall2_differs_trans; [apply resetChild_differs | apply IH].
Qed.

Section ResetProperties.

Variable getBoundingClientRect : list Sortable → nat → DOMRect.

(** X6. [resetPreviewPositions] keeps every child at its place with its
    [draggable] flag and its descendants and changes at most these style
    properties: [transform], [opacity], [order], and the [transition]
    family, of which it writes [transition-duration].  It touches
    neither the snapshot nor the dragged and drop indices, nor the
    attributes, the [listening] flag or the event log. *)
Theorem resetPreviewPositions_frame (s : ManualSort) :
  let s' := resetPreviewPositions getBoundingClientRect s in
  Forall2 (differs_outside_transition ["transform"; "opacity"; "order"])
    (children s) (children s') ∧
  sortablesAndBounds s' = sortablesAndBounds s ∧
  draggingItemIndex s' = draggingItemIndex s ∧
  dropIndex s' = dropIndex s ∧
  attributes s' = attributes s ∧
  listening s' = listening s ∧
  dispatched s' = dispatched s.
Proof.
  intros s'. unfold s', resetPreviewPositions. simpl.
  split; [|done].
  eapply Forall2_differs_outside_transition; [|apply forEach_resetChild_differs].
  unfold reset_properties. intros k Hk.
  apply elem_of_cons in Hk as [->|Hk]; [by right|]. by left.
Qed.

(** X7. Gesture end clears neither the dragged index nor the snapshot nor
    the drop index, and the next gesture start does not reset the drop
    index either.  So when the first move of the next gesture hits the
    slot on which the previous gesture's last move landed, the handler
    takes the slot for unchanged and renders no preview. *)
Theorem gesture_state_survives_dragend (s : ManualSort)
    (e_end e_start e_move : DragEvent) :
  let s1 := handleDragend getBoundingClientRect s e_end in
  let s2 := handleDragstart getBoundingClientRect s1 e_start in
  draggingItemIndex s1 = draggingItemIndex s ∧
  sortablesAndBounds s1 = sortablesAndBounds s ∧
  dropIndex s1 = dropIndex s ∧
  dropIndex s2 = dropIndex s ∧
  (draggingItemIndex s2 ≠ Some (-1) →
   dropIndex s = Some (findSortableIndex s2 (clientX e_move) (clientY e_move)) →
   handleDragover s2 e_move = (s2, preventDefault e_move, Normal)).
Proof.
  intros s1 s2.
  assert (Hend : draggingItemIndex s1 = draggingItemIndex s ∧
                 sortablesAndBounds s1 = sortablesAndBounds s ∧
                 dropIndex s1 = dropIndex s).
  { unfold s1, handleDragend. by destruct (bool_decide _). }
  destruct Hend as (Hdr & Hsab & Hdrop).
  assert (Hstart : dropIndex s2 = dropIndex s) by (by rewrite <- Hdrop).
  repeat split; try done.
  intros Hgesture Hsame. unfold handleDragover.
  rewrite bool_decide_eq_false_2 by done.
  rewrite Hstart, Hsame. simpl. by rewrite Z.eqb_refl.
Qed.

End ResetProperties.

(** * Properties of the drag set-up of a whole list *)

Lemma useDragHandles_false_createDragHandles (s : ManualSort) :
  useDragHandles s = false → createDragHandles s = false.
Proof.
  intros Huse. apply not_true_is_false. intros Hcreate.
  apply createDragHandles_spec in Hcreate.
  assert (useDragHandles s = true); [|congruence].
  apply useDragHandles_spec. by exists "create".
Qed.

Lemma forEach_makeSortableDraggable_whole_item (s : ManualSort) (els : list Sortable) :
  useDragHandles s = false →
  forEach_makeSortableDraggable s els = (map (set_draggable true) els, Normal).
Proof.
  intros Huse. pose proof (useDragHandles_false_createDragHandles s Huse) as Hcreate.
  induction els as [|el els IH]; simpl; [done|].
  by rewrite (makeSortableDraggable_whole_item s el Huse Hcreate), IH.
Qed.

(** X8. When the [drag-handles] attribute is absent, empty or ["false"],
    making the children of a list draggable never raises, marks every
    child itself draggable, creates no handle and leaves styles and
    descendants alone. *)
Theorem makeAllSortablesDraggable_whole_item (s : ManualSort) :
  getAttribute s "drag-handles" = None ∨
  getAttribute s "drag-handles" = Some EmptyString ∨
  getAttribute s "drag-handles" = Some "false" →
  makeAllSortablesDraggable s
  = (set_children (map (set_draggable true) (children s)) s, Normal).
Proof.
  intros Hattr. unfold makeAllSortablesDraggable.
  by rewrite forEach_makeSortableDraggable_whole_item by by apply useDragHandles_false.
Qed.

Lemma forEach_makeSortableDraggable_stops (s : ManualSort)
    (before : list Sortable) (el : Sortable) (after : list Sortable) :
  useDragHandles s = true → createDragHandles s = false →
  Forall (fun el_j => is_Some (querySelector "drag-handle" el_j)) before →
  querySelector "drag-handle" el = None →
  ∃ before', forEach_makeSortableDraggable s (before ++ el :: after)
             = (before' ++ el :: after, Throw TypeError) ∧
             Forall2 handle_marked before before'.
Proof.
  intros Huse Hcreate Hbefore Hq.
  induction Hbefore as [|el0 before [[k h] Hq0] Hbefore IH]; simpl.
  - rewrite (makeSortableDraggable_throws s el Huse Hcreate Hq).
    exists []. split; [done | constructor].
  - rewrite (makeSortableDraggable_found s el0 k h Huse Hq0).
    destruct IH as (before' & -> & Hmarked).
    eexists (_ :: before'). split; [done|].
    constructor; [by exists k, h | done].
Qed.

(** X9. With handles in use and not created, the pass over the children
    stops at the first child without a [.drag-handle] descendant with a
    [TypeError]: the children before it have had their first handle
    marked draggable, that child and all later ones are untouched. *)
Theorem makeAllSortablesDraggable_stops_at_missing_handle (s : ManualSort)
    (before : list Sortable) (el : Sortable) (after : list Sortable) :
  useDragHandles s = true →
  createDragHandles s = false →
  children s = before ++ el :: after →
  Forall (fun el_j => is_Some (querySelector "drag-handle" el_j)) before →
  querySelector "drag-handle" el = None →
  ∃ before', makeAllSortablesDraggable s
             = (set_children (before' ++ el :: after) s, Throw TypeError) ∧
             Forall2 handle_marked before before'.
Proof.
  intros Huse Hcreate Hchildren Hbefore Hq. unfold makeAllSortablesDraggable.
  rewrite Hchildren.
  destruct (forEach_makeSortableDraggable_stops s before el after Huse Hcreate Hbefore Hq)
    as (before' & -> & Hmarked).
  by exists before'.
Qed.

(** * Properties of activation and deactivation *)

Lemma makeAllSortablesDraggable_keeps (s : ManualSort) :
  listening (makeAllSortablesDraggable s).1 = listening s ∧
  attributes (makeAllSortablesDraggable s).1 = attributes s ∧
  draggingItemIndex (makeAllSortablesDraggable s).1 = draggingItemIndex s ∧
  dropIndex (makeAllSortablesDraggable s).1 = dropIndex s ∧
  sortablesAndBounds (makeAllSortablesDraggable s).1 = sortablesAndBounds s ∧
  dispatched (makeAllSortablesDraggable s).1 = dispatched s.
Proof.
  unfold makeAllSortablesDraggable.
  by destruct (forEach_makeSortableDraggable s (children s)) as [els c].
Qed.

Lemma forEach_makeSortableDraggable_throws (s : ManualSort) (els : list Sortable) :
  useDragHandles s = true → createDragHandles s = false →
  Exists (fun el => querySelector "drag-handle" el = None) els →
  (forEach_makeSortableDraggable s els).2 = Throw TypeError.
Proof.
  intros Huse Hcreate. induction els as [|el els IH]; intros Hex; [by inversion Hex|].
  simpl. destruct (querySelector "drag-handle" el) as [[k h]|] eqn:Hq.
  - rewrite (makeSortableDraggable_found s el k h Huse Hq).
    apply Exists_cons in Hex as [Hhere | Hlater]; [congruence|].
    specialize (IH Hlater).
    by destruct (forEach_makeSortableDraggable s els) as [els' c].
  - by rewrite (makeSortableDraggable_throws s el Huse Hcreate Hq).
Qed.

Lemma stopListeningForSortingEvents_idle (h : Host) :
  listening (element h) = false → stopListeningForSortingEvents h = h.
Proof. intros Hl. unfold stopListeningForSortingEvents. by rewrite Hl. Qed.

Lemma addEventListener_three (l : gset string) :
  {[ "dragend" ]} ∪ ({[ "dragover" ]} ∪ ({[ "dragstart" ]} ∪ l)) = sorting_events ∪ l.
Proof.
  unfold sorting_events. apply set_eq. intros x.
  rewrite !elem_of_union, !elem_of_singleton. tauto.
Qed.

Lemma removeEventListener_three (l : gset string) :
  l ∖ {[ "dragstart" ]} ∖ {[ "dragover" ]} ∖ {[ "dragend" ]} = l ∖ sorting_events.
Proof.
  unfold sorting_events. apply set_eq. intros x.
  rewrite !elem_of_difference, !elem_of_union, !elem_of_singleton. tauto.
Qed.

Lemma sorting_events_absorb (l : gset string) :
  l ⊆ sorting_events → sorting_events ∪ l = sorting_events.
Proof. intros Hsub. rewrite (comm_L (∪)). by apply subseteq_union_1_L. Qed.

Lemma sorting_events_difference (l : gset string) :
  l ⊆ sorting_events → l ∖ sorting_events ⊆ sorting_events.
Proof. intros Hsub x Hx. apply elem_of_difference in Hx as [Hx _]. by apply Hsub. Qed.

Ltac host_simpl :=
  cbn [fst snd element eventListeners observers listening children
       set_listening set_element set_children configMutationObserver
       addEventListener removeEventListener] in *.

Section LifecycleProperties.

Variable getBoundingClientRect : list Sortable → nat → DOMRect.

Lemma listenForSortingEvents_inv (h : Host) :
  lifecycle_inv h → lifecycle_inv (listenForSortingEvents getBoundingClientRect h).1.
Proof.
  intros Hinv0. pose proof Hinv0 as [Hsub Hinv]. unfold listenForSortingEvents.
  destruct (listening (element h)) eqn:Hl; [exact Hinv0|].
  pose proof (makeAllSortablesDraggable_keeps
                (resetPreviewPositions getBoundingClientRect (element h)))
    as (Hkeep & _).
  change (listening (resetPreviewPositions getBoundingClientRect (element h)))
    with (listening (element h)) in Hkeep.
  destruct (makeAllSortablesDraggable _) as [s2 [|err]];
    unfold lifecycle_inv; host_simpl;
    rewrite addEventListener_three, sorting_events_absorb by done.
  - split; [done|]. split; [done|]. by exists (observers h).
  - split; [done|]. by rewrite Hkeep, Hl.
Qed.

Lemma stopListeningForSortingEvents_inv (h : Host) :
  lifecycle_inv h → lifecycle_inv (stopListeningForSortingEvents h).
Proof.
  intros Hinv0. pose proof Hinv0 as [Hsub Hinv]. unfold stopListeningForSortingEvents.
  destruct (listening (element h)) eqn:Hl; cbn [negb]; [|exact Hinv0].
  destruct Hinv as (_ & older & Hobs & Holder).
  unfold lifecycle_inv, disconnect_observer. host_simpl. rewrite Hobs. host_simpl.
  rewrite removeEventListener_three.
  split; [by apply sorting_events_difference|]. by constructor.
Qed.

Lemma react_inv (h : Host) (ev : LifecycleEvent) :
  lifecycle_inv h → lifecycle_inv (react getBoundingClientRect h ev).1.
Proof.
  intros Hinv. destruct ev as [| |name oldValue newValue]; simpl.
  - unfold connectedCallback. destruct (negb _); [|done].
    by apply listenForSortingEvents_inv.
  - by apply stopListeningForSortingEvents_inv.
  - unfold attributeChangedCallback. destruct (decide _); [|done].
    destruct (negb _); [by apply listenForSortingEvents_inv|].
    by apply stopListeningForSortingEvents_inv.
Qed.

(** X10. Through every run of life-cycle events from construction on
    (connection, disconnection, attribute changes, in any order, set-up
    exceptions included), only the three gesture handlers are ever
    registered; while the component is [listening] all three are
    registered and exactly one mutation observer, the newest, is
    observing; while it is not, none is. *)
Theorem lifecycle_invariant (attrs : gmap string string) (kids : list Sortable)
    (events : list LifecycleEvent) :
  lifecycle_inv (react_all getBoundingClientRect (new_host attrs kids) events).
Proof.
  assert (Hall : ∀ h, lifecycle_inv h →
                      lifecycle_inv (react_all getBoundingClientRect h events)).
  { induction events as [|ev events IH]; intros h Hinv; simpl; [done|].
    by apply IH, react_inv. }
  apply Hall. split; [|constructor].
  intros x Hx. by apply elem_of_empty in Hx.
Qed.

(** X11. Activation fails when handles are in use, not created, and some
    child has no [.drag-handle] descendant: [listenForSortingEvents]
    raises a [TypeError] after it has registered the three handlers,
    leaves [listening] unset and creates no observer.  Since
    [stopListeningForSortingEvents] returns at once while [listening] is
    unset, a later deactivation leaves the handlers registered. *)
Theorem listenForSortingEvents_missing_handle (h : Host) :
  listening (element h) = false →
  useDragHandles (element h) = true →
  createDragHandles (element h) = false →
  Exists (fun el => querySelector "drag-handle" el = None) (children (element h)) →
  let h' := (listenForSortingEvents getBoundingClientRect h).1 in
  (listenForSortingEvents getBoundingClientRect h).2 = Throw TypeError ∧
  listening (element h') = false ∧
  eventListeners h' = sorting_events ∪ eventListeners h ∧
  observers h' = observers h ∧
  stopListeningForSortingEvents h' = h'.
Proof.
  intros Hl Huse Hcreate Hmissing h'.
  set (s1 := resetPreviewPositions getBoundingClientRect (element h)).
  assert (Hthrow : (makeAllSortablesDraggable s1).2 = Throw TypeError).
  { unfold makeAllSortablesDraggable.
    pose proof (forEach_makeSortableDraggable_throws s1 (children s1)) as Hrun.
    destruct (forEach_makeSortableDraggable s1 (children s1)) as [els c]. simpl in *.
    apply Hrun; [done..|].
    pose proof (forEach_resetChild_differs
                  (sortablesInVisualOrder getBoundingClientRect (element h)) 0
                  (children (element h))) as Hdiff.
    apply Exists_exists in Hmissing as (el & Hel & Hq).
    apply list_elem_of_lookup_1 in Hel as [k Hk].
    destruct (Forall2_lookup_l _ _ _ k el Hdiff Hk) as (el1 & Hk1 & _ & Hdesc & _).
    apply Exists_exists. exists el1. split; [by eapply list_elem_of_lookup_2|].
    unfold querySelector in *. by rewrite Hdesc. }
  pose proof (makeAllSortablesDraggable_keeps s1) as (Hkeep & _).
  assert (Hrun : listenForSortingEvents getBoundingClientRect h
                 = (mkHost (makeAllSortablesDraggable s1).1
                      ({[ "dragend" ]} ∪ ({[ "dragover" ]} ∪ ({[ "dragstart" ]} ∪ eventListeners h)))
                      (observers h), Throw TypeError)).
  { unfold listenForSortingEvents. rewrite Hl. host_simpl. fold s1.
    destruct (makeAllSortablesDraggable s1) as [s2 c]. host_simpl. by subst c. }
  assert (Hstill : listening (element h') = false).
  { unfold h'. rewrite Hrun. host_simpl. by rewrite Hkeep. }
  split; [by rewrite Hrun|]. split; [done|]. split; [|split].
  - unfold h'. rewrite Hrun. host_simpl. apply addEventListener_three.
  - unfold h'. by rewrite Hrun.
  - by apply stopListeningForSortingEvents_idle.
Qed.

(** X12. Activation in the default configuration ([drag-handles] absent,
    empty or ["false"]) never fails: from a component that is not
    listening, [listenForSortingEvents] completes, registers the three
    handlers, starts one new observer, sets [listening], and leaves the
    children as the reset made them, each marked draggable. *)
Theorem listenForSortingEvents_whole_item (h : Host) :
  listening (element h) = false →
  useDragHandles (element h) = false →
  ∃ h', listenForSortingEvents getBoundingClientRect h = (h', Normal) ∧
        listening (element h') = true ∧
        eventListeners h' = sorting_events ∪ eventListeners h ∧
        observers h' = true :: observers h ∧
        children (element h')
        = map (set_draggable true)
            (children (resetPreviewPositions getBoundingClientRect (element h))).
Proof.
  intros Hl Huse. unfold listenForSortingEvents. rewrite Hl. host_simpl.
  unfold makeAllSortablesDraggable.
  rewrite forEach_makeSortableDraggable_whole_item by done.
  eexists. split; [done|]. host_simpl. split; [done|]. split; [|done].
  apply addEventListener_three.
Qed.

End LifecycleProperties.

Lemma Forall2_map_r_intro {A B} (R : A → B → Prop) (f : A → B) (l : list A) :
  (∀ x, R x (f x)) → Forall2 R l (map f l).
Proof. intros HR. induction l; simpl; constructor; auto. Qed.

(** X13. Deactivating a listening component unsets [listening], removes
    the three handlers, stops the newest observer, and leaves every
    child not draggable and without a [transition] declaration; the
    style properties outside the [transition] family, [order] among
    them, and the descendants stay, so a handle that was marked
    draggable remains draggable.  Deactivating again changes nothing. *)
Theorem stopListeningForSortingEvents_effect (h : Host) :
  listening (element h) = true →
  let h' := stopListeningForSortingEvents h in
  listening (element h') = false ∧
  eventListeners h' = eventListeners h ∖ sorting_events ∧
  observers h' = match observers h with [] => [] | _ :: older => false :: older end ∧
  Forall2 deactivated (children (element h)) (children (element h')) ∧
  stopListeningForSortingEvents h' = h'.
Proof.
  intros Hl h'.
  assert (Hstill : listening (element h') = false).
  { unfold h', stopListeningForSortingEvents. rewrite Hl. simpl.
    unfold disconnect_observer. simpl. by destruct (observers h). }
  split; [done|]. split; [|split; [|split]].
  - unfold h', stopListeningForSortingEvents. rewrite Hl. cbn [negb].
    unfold disconnect_observer. host_simpl.
    destruct (observers h); host_simpl; apply removeEventListener_three.
  - unfold h', stopListeningForSortingEvents. rewrite Hl. simpl.
    unfold disconnect_observer. simpl.
    destruct (observers h) eqn:Hobs; simpl; by rewrite ?Hobs.
  - unfold h', stopListeningForSortingEvents. rewrite Hl. simpl.
    unfold disconnect_observer. simpl.
    assert (Hmap : Forall2 deactivated (children (element h))
                     (map stopChild (children (element h)))).
    { apply Forall2_map_r_intro. intros el. unfold deactivated, stopChild, setProperty.
      rewrite decide_True by done. cbn [draggable descendants style set_draggable set_style].
      split; [done|]. split; [done|]. split; [apply lookup_delete_eq|].
      intros k Hk. apply lookup_delete_ne. by intros <-. }
    by destruct (observers h).
  - by apply stopListeningForSortingEvents_idle.
Qed.

Section AttributeProperties.

Variable getBoundingClientRect : list Sortable → nat → DOMRect.

Lemma listenForSortingEvents_whole_item_listening (h : Host) :
  useDragHandles (element h) = false →
  (listenForSortingEvents getBoundingClientRect h).2 = Normal ∧
  listening (element (listenForSortingEvents getBoundingClientRect h).1) = true.
Proof.
  intros Huse. unfold listenForSortingEvents.
  destruct (listening (element h)) eqn:Hl; [done|]. host_simpl.
  unfold makeAllSortablesDraggable.
  by rewrite forEach_makeSortableDraggable_whole_item by done.
Qed.

Lemma stopListeningForSortingEvents_listening (h : Host) :
  listening (element (stopListeningForSortingEvents h)) = false.
Proof.
  unfold stopListeningForSortingEvents.
  destruct (listening (element h)) eqn:Hl; cbn [negb]; [|done].
  unfold disconnect_observer. host_simpl. by destruct (observers h).
Qed.

(** X14. In the default drag-handle configuration the [sortable]
    attribute decides whether the component listens: after
    [attributeChangedCallback] for it the component is listening exactly
    when the new value is not ["false"], a removed attribute counting as
    a value that is not ["false"]; a change of any other attribute does
    nothing; and after [connectedCallback] the component is listening
    exactly when it was before or its [sortable] attribute is not
    ["false"].  No exception is raised. *)
Theorem sortable_attribute_sets_listening (h : Host) :
  useDragHandles (element h) = false →
  (∀ oldValue newValue,
     (attributeChangedCallback getBoundingClientRect h "sortable" oldValue newValue).2
     = Normal ∧
     listening (element (attributeChangedCallback getBoundingClientRect h "sortable"
                           oldValue newValue).1)
     = negb (strict_eq newValue "false")) ∧
  (∀ name oldValue newValue, name ≠ "sortable" →
     attributeChangedCallback getBoundingClientRect h name oldValue newValue
     = (h, Normal)) ∧
  (connectedCallback getBoundingClientRect h).2 = Normal ∧
  listening (element (connectedCallback getBoundingClientRect h).1)
  = listening (element h) || negb (strict_eq (getAttribute (element h) "sortable") "false").
Proof.
  intros Huse.
  pose proof (listenForSortingEvents_whole_item_listening h Huse) as [Hnormal Hlisten].
  split; [|split].
  - intros oldValue newValue. unfold attributeChangedCallback.
    rewrite decide_True by done.
    destruct (strict_eq newValue "false"); cbn [negb]; [|done].
    split; [done|]. apply stopListeningForSortingEvents_listening.
  - intros name oldValue newValue Hname. unfold attributeChangedCallback.
    by rewrite decide_False by done.
  - unfold connectedCallback.
    destruct (strict_eq (getAttribute (element h) "sortable") "false"); cbn [negb].
    + by rewrite orb_false_r.
    + by rewrite Hlisten, orb_true_r.
Qed.

End AttributeProperties.

(** * Properties of the child-list observer callback *)

Lemma indexOf_sortables (s : ManualSort) (n : nat) :
  (n < length (children s))%nat → indexOf n (sortables s) = Z.of_nat n.
Proof.
  intros Hn. unfold sortables.
  destruct (indexOf_spec n (seq 0 (length (children s))))
    as [[_ Hnotin] | (i & -> & Hi)].
  - exfalso. apply Hnotin. apply elem_of_seq. lia.
  - apply lookup_seq in Hi as [-> _]. done.
Qed.

Lemma alter_insert_same {A} (f : A → A) (l : list A) (n : nat) (x : A) :
  (n < length l)%nat → alter f n (<[n := x]> l) = <[n := f x]> l.
Proof.
  intros Hn. apply list_eq. intros j. destruct (decide (n = j)) as [<-|Hne].
  - rewrite list_lookup_alter_eq, !list_lookup_insert_eq by done. done.
  - by rewrite list_lookup_alter_ne, !list_lookup_insert_ne by done.
Qed.

Lemma addedNode_whole_item (s : ManualSort) (n : nat) (el : Sortable) :
  useDragHandles s = false →
  children s !! n = Some el →
  addedNode s n = (set_children (<[n := added_element n el]> (children s)) s, Normal).
Proof.
  intros Huse Hel. unfold addedNode. rewrite Hel.
  rewrite (makeSortableDraggable_whole_item s el Huse
             (useDragHandles_false_createDragHandles s Huse)).
  apply lookup_lt_Some in Hel as Hn.
  rewrite (indexOf_sortables s n Hn). unfold style_setProperty.
  by rewrite alter_insert_same by done.
Qed.

Lemma forEach_addedNode_whole_item (addedNodes : list nat) (s : ManualSort) :
  useDragHandles s = false →
  Forall (fun n => (n < length (children s))%nat) addedNodes →
  ∃ s1, forEach_addedNode s addedNodes = (s1, Normal) ∧
        length (children s1) = length (children s) ∧
        ∀ (ref : nat) (el1 : Sortable), children s1 !! ref = Some el1 →
          ∃ el, children s !! ref = Some el ∧
                descendants el1 = descendants el ∧
                (draggable el = true → draggable el1 = true) ∧
                (ref ∈ addedNodes → draggable el1 = true).
Proof.
  revert s. induction addedNodes as [|n rest IH]; intros s Huse Hvalid; simpl.
  - exists s. split; [done|]. split; [done|]. intros ref el1 Hel1.
    exists el1. split; [done|]. split; [done|]. split; [done|].
    intros Hin. by apply elem_of_nil in Hin.
  - apply Forall_cons in Hvalid as [Hn Hrest].
    destruct (lookup_lt_is_Some_2 (children s) n Hn) as [el Hel].
    rewrite (addedNode_whole_item s n el Huse Hel).
    set (s0 := set_children (<[n := added_element n el]> (children s)) s).
    assert (Hlen0 : length (children s0) = length (children s))
      by (unfold s0; simpl; apply length_insert).
    destruct (IH s0) as (s1 & Hrun & Hlen & Hall).
    { done. }
    { by rewrite Hlen0. }
    exists s1. split; [done|]. split; [by rewrite Hlen|].
    intros ref el1 Hel1. destruct (Hall ref el1 Hel1) as (el0 & Hel0 & Hdesc & Hkeep & Hadded).
    unfold s0 in Hel0. simpl in Hel0.
    destruct (decide (n = ref)) as [<-|Hne].
    + rewrite list_lookup_insert_eq in Hel0 by done. injection Hel0 as <-.
      exists el. split; [done|]. split; [done|].
      split; intros _; by apply Hkeep.
    + rewrite list_lookup_insert_ne in Hel0 by done.
      exists el0. split; [done|]. split; [done|]. split; [done|].
      intros Hin. apply elem_of_cons in Hin as [->|Hin]; [done | by apply Hadded].
Qed.

Section ObserverProperties.

Variable getBoundingClientRect : list Sortable → nat → DOMRect.

(** X15. In the default drag-handle configuration the observer callback,
    run for added nodes that are children of the list, completes; it
    keeps the number of children and every child's descendants, leaves
    each added child draggable, and ends with every child's [order]
    equal to its position in the visual order read after the added
    children were set up: the [order] the callback first gives an added
    child, its position among the children, is overwritten by the reset
    that closes the callback. *)
Theorem childListCallback_whole_item (s : ManualSort) (addedNodes : list nat) :
  useDragHandles s = false →
  Forall (fun n => (n < length (children s))%nat) addedNodes →
  let s1 := (forEach_addedNode s addedNodes).1 in
  ∃ s', childListCallback getBoundingClientRect s addedNodes = (s', Normal) ∧
        length (children s') = length (children s) ∧
        (∀ n, n ∈ addedNodes →
           ∃ el', children s' !! n = Some el' ∧ draggable el' = true) ∧
        (∀ (ref : nat) (el' : Sortable), children s' !! ref = Some el' →
           ∃ (el : Sortable) (i : nat),
             children s !! ref = Some el ∧
             descendants el' = descendants el ∧
             sortablesInVisualOrder getBoundingClientRect s1 !! i = Some ref ∧
             style el' !! "order" = Some (toString (Z.of_nat i))).
Proof.
  intros Huse Hvalid s1.
  destruct (forEach_addedNode_whole_item addedNodes s Huse Hvalid)
    as (s1' & Hrun & Hlen & Hall).
  assert (Hs1 : s1 = s1') by (unfold s1; by rewrite Hrun). rewrite Hs1. clear s1 Hs1.
  unfold childListCallback. rewrite Hrun.
  eexists. split; [done|].
  assert (Hlen' : length (children (resetPreviewPositions getBoundingClientRect s1'))
                  = length (children s)).
  { unfold resetPreviewPositions. simpl. by rewrite forEach_resetChild_length. }
  assert (Hreset : ∀ (ref : nat) (el' : Sortable),
            children (resetPreviewPositions getBoundingClientRect s1') !! ref = Some el' →
            ∃ (el1 : Sortable) (i : nat),
              children s1' !! ref = Some el1 ∧
              sortablesInVisualOrder getBoundingClientRect s1' !! i = Some ref ∧
              el' = reset_element i el1).
  { intros ref el' Hel'.
    assert (Hlt : (ref < length (children s1'))%nat).
    { apply lookup_lt_Some in Hel'. rewrite Hlen' in Hel'. by rewrite Hlen. }
    apply sortablesInVisualOrder_elem with (getBoundingClientRect := getBoundingClientRect)
      in Hlt as Hin.
    apply list_elem_of_lookup_1 in Hin as [i Hi].
    unfold resetPreviewPositions in Hel'. simpl in Hel'.
    rewrite (forEach_resetChild_at _ 0 _ i ref) in Hel'
      by (done || apply sortablesInVisualOrder_NoDup).
    destruct (children s1' !! ref) as [el1|] eqn:Hel1; [|done].
    injection Hel' as <-. by exists el1, i. }
  split; [done|]. split.
  - intros n Hn.
    assert (Hlt : (n < length (children (resetPreviewPositions getBoundingClientRect s1')))%nat).
    { rewrite Hlen'. rewrite Forall_forall in Hvalid. by apply Hvalid. }
    destruct (lookup_lt_is_Some_2 _ _ Hlt) as [el' Hel'].
    exists el'. split; [done|].
    destruct (Hreset n el' Hel') as (el1 & i & Hel1 & _ & ->).
    destruct (Hall n el1 Hel1) as (el & _ & _ & _ & Hadded). simpl. by apply Hadded.
  - intros ref el' Hel'.
    destruct (Hreset ref el' Hel') as (el1 & i & Hel1 & Hi & ->).
    destruct (Hall ref el1 Hel1) as (el & Hel & Hdesc & _).
    exists el, i. split; [done|]. split; [done|]. split; [done|].
    simpl. apply reset_style_lookup.
Qed.

(** X16. With handles in use and not created, the observer callback
    raises a [TypeError] at an added child that has no [.drag-handle]
    descendant: when that child is the first added node the component is
    left exactly as it was, no [order] is written and the reset that
    should close the callback does not run. *)
Theorem childListCallback_missing_handle (s : ManualSort) (n : nat) (el : Sortable)
    (rest : list nat) :
  useDragHandles s = true →
  createDragHandles s = false →
  children s !! n = Some el →
  querySelector "drag-handle" el = None →
  childListCallback getBoundingClientRect s (n :: rest) = (s, Throw TypeError).
Proof.
  intros Huse Hcreate Hel Hq. unfold childListCallback. simpl. unfold addedNode.
  rewrite Hel, (makeSortableDraggable_throws s el Huse Hcreate Hq).
  rewrite list_insert_id by done. by destruct s.
Qed.

End ObserverProperties.

(** * The hit test and the preview through the gesture-move handler *)





(** * Whole gestures *)

Section WholeGesture.

Variable getBoundingClientRect : list Sortable → nat → DOMRect.

(** X19. A gesture whose start event does not resolve to a child of the
    list is ignored: the dragged index is [-1], every gesture-move event
    returns at once without cancelling the default action, and the
    gesture-end event dispatches nothing and resets nothing. *)
Theorem gesture_off_item_is_ignored (s : ManualSort) (e : DragEvent)
    (moves : list DragEvent) (e_end : DragEvent) :
  target_child e = None →
  let s0 := handleDragstart getBoundingClientRect s e in
  (∀ e_move, handleDragover s0 e_move = (s0, e_move, Normal)) ∧
  forEach_handleDragover s0 moves = (s0, Normal) ∧
  handleDragend getBoundingClientRect s0 e_end = s0 ∧
  children s0 = children s ∧
  dispatched s0 = dispatched s.
Proof.
  intros Htarget s0.
  assert (Hd : draggingItemIndex s0 = Some (-1)).
  { unfold s0, handleDragstart. simpl. by rewrite Htarget. }
  assert (Hover : ∀ e_move, handleDragover s0 e_move = (s0, e_move, Normal)).
  { intros e_move. unfold handleDragover. by rewrite bool_decide_eq_true_2. }
  split; [done|]. split; [|split; [|done]].
  - induction moves as [|e_move moves IH]; simpl; [done|]. by rewrite Hover.
  - unfold handleDragend. by rewrite bool_decide_eq_true_2.
Qed.

(** X20. A whole gesture that starts on a child, whatever moves follow,
    completes without an exception and dispatches exactly one event, at
    its end: a [sort] event whose payload lists every child of the list
    exactly once. *)
Theorem gesture_dispatches_one_sort (s : ManualSort) (e : DragEvent) (c : nat)
    (moves : list DragEvent) (e_end : DragEvent) :
  target_child e = Some c →
  (c < length (children s))%nat →
  ∃ (s1 : ManualSort) (payload : list nat),
    forEach_handleDragover (handleDragstart getBoundingClientRect s e) moves
    = (s1, Normal) ∧
    dispatched s1 = dispatched s ∧
    dispatched (handleDragend getBoundingClientRect s1 e_end)
    = dispatched s ++ [mkCustomEvent "sort" payload] ∧
    Permutation (seq 0 (length (children s))) payload.
Proof.
  intros Htarget Hc.
  set (s0 := handleDragstart getBoundingClientRect s e).
  destruct (handleDragstart_dragging_range getBoundingClientRect s e) as (d & Hdrag & Hd).
  fold s0 in Hdrag, Hd.
  assert (Hnot : d ≠ -1).
  { unfold s0, handleDragstart in Hdrag. simpl in Hdrag. rewrite Htarget in Hdrag.
    injection Hdrag as <-.
    destruct (indexOf_spec c (sortablesInVisualOrder getBoundingClientRect s))
      as [[_ Hnotin] | (i & -> & _)]; [|lia].
    exfalso. apply Hnotin. by apply sortablesInVisualOrder_elem. }
  destruct (forEach_handleDragover_in_gesture moves s0 d Hdrag Hd)
    as (s1 & Hrun & _ & Hdr & Hev & Hlen).
  exists s1, (sortablesInVisualOrder getBoundingClientRect s1).
  split; [done|]. split; [by rewrite Hev|]. split.
  - unfold handleDragend. rewrite Hdr, Hdrag.
    rewrite bool_decide_eq_false_2 by (by intros [= ?]).
    simpl. by rewrite Hev.
  - unfold s0, handleDragstart in Hlen. simpl in Hlen. rewrite <- Hlen.
    apply sortablesInVisualOrder_Permutation.
Qed.

(** X21. The hit test reads the snapshot only: neither a preview nor a
    reset changes what [findSortableIndex] returns for a point, whatever
    they do to the items on the page. *)
Theorem findSortableIndex_ignores_preview (s : ManualSort) (newIndex x y : Z) :
  findSortableIndex (previewNewPositions s newIndex).1 x y = findSortableIndex s x y ∧
  findSortableIndex (resetPreviewPositions getBoundingClientRect s) x y
  = findSortableIndex s x y.
Proof.
  unfold findSortableIndex.
  pose proof (previewNewPositions_keeps s newIndex) as [-> _]. done.
Qed.

End WholeGesture.

(** * Instances of the further properties *)


Lemma handleDragover_outside_boxes_witness :
  ∃ s', handleDragover list4_dragging (drag_at 500 500)
        = (s', preventDefault (drag_at 500 500), Normal) ∧
        children s' = children list4_dragging ∧
        dropIndex s' = Some (-1) ∧
        sortablesAndBounds s' = sortablesAndBounds list4_dragging ∧
        draggingItemIndex s' = draggingItemIndex list4_dragging.
Proof.
  apply (handleDragover_outside_boxes list4_dragging (drag_at 500 500)).
  - vm_compute. discriminate.
  - apply Forall_forall. apply (bool_decide_unpack _). vm_compute. exact I.
Defined.

Lemma makeAllSortablesDraggable_whole_item_witness :
  makeAllSortablesDraggable list4
  = (set_children (map (set_draggable true) (children list4)) list4, Normal).
Proof.
  apply (makeAllSortablesDraggable_whole_item list4).
  left. vm_compute. reflexivity.
Defined.

Lemma makeAllSortablesDraggable_stops_at_missing_handle_witness :
  ∃ before', makeAllSortablesDraggable list2_yes
             = (set_children (before' ++ li :: []) list2_yes, Throw TypeError) ∧
             Forall2 handle_marked [li_with_handle] before'.
Proof.
  apply (makeAllSortablesDraggable_stops_at_missing_handle list2_yes
           [li_with_handle] li []).
  - vm_compute. reflexivity.
  - vm_compute. reflexivity.
  - reflexivity.
  - constructor; [|constructor]. vm_compute. by eexists.
  - vm_compute. reflexivity.
Defined.

Lemma listenForSortingEvents_missing_handle_witness :
  (listenForSortingEvents block_layout host_missing_handle).2 = Throw TypeError ∧
  listening (element (listenForSortingEvents block_layout host_missing_handle).1) = false ∧
  eventListeners (listenForSortingEvents block_layout host_missing_handle).1
  = sorting_events ∪ eventListeners host_missing_handle ∧
  observers (listenForSortingEvents block_layout host_missing_handle).1
  = observers host_missing_handle ∧
  stopListeningForSortingEvents (listenForSortingEvents block_layout host_missing_handle).1
  = (listenForSortingEvents block_layout host_missing_handle).1.
Proof.
  apply (listenForSortingEvents_missing_handle block_layout host_missing_handle).
  - reflexivity.
  - vm_compute. reflexivity.
  - vm_compute. reflexivity.
  - apply Exists_cons_tl, Exists_cons_hd. vm_compute. reflexivity.
Defined.

Lemma listenForSortingEvents_whole_item_witness :
  ∃ h', listenForSortingEvents block_layout host_plain = (h', Normal) ∧
        listening (element h') = true ∧
        eventListeners h' = sorting_events ∪ eventListeners host_plain ∧
        observers h' = true :: observers host_plain ∧
        children (element h')
        = map (set_draggable true)
            (children (resetPreviewPositions block_layout (element host_plain))).
Proof.
  apply (listenForSortingEvents_whole_item block_layout host_plain).
  - reflexivity.
  - vm_compute. reflexivity.
Defined.

Lemma stopListeningForSortingEvents_effect_witness :
  listening (element (stopListeningForSortingEvents host_listening)) = false ∧
  eventListeners (stopListeningForSortingEvents host_listening)
  = eventListeners host_listening ∖ sorting_events ∧
  observers (stopListeningForSortingEvents host_listening)
  = match observers host_listening with [] => [] | _ :: older => false :: older end ∧
  Forall2 deactivated (children (element host_listening))
    (children (element (stopListeningForSortingEvents host_listening))) ∧
  stopListeningForSortingEvents (stopListeningForSortingEvents host_listening)
  = stopListeningForSortingEvents host_listening.
Proof.
  apply (stopListeningForSortingEvents_effect host_listening).
  vm_compute. reflexivity.
Defined.

Lemma sortable_attribute_sets_listening_witness :
  (attributeChangedCallback block_layout host_plain "sortable" (Some "false") None).2
  = Normal ∧
  listening (element (attributeChangedCallback block_layout host_plain "sortable"
                        (Some "false") None).1)
  = negb (strict_eq None "false").
Proof.
  apply (sortable_attribute_sets_listening block_layout host_plain).
  vm_compute. reflexivity.
Defined.

Lemma childListCallback_whole_item_witness :
  ∃ s', childListCallback block_layout list4 [3%nat] = (s', Normal) ∧
        length (children s') = length (children list4) ∧
        (∀ n, n ∈ [3%nat] →
           ∃ el', children s' !! n = Some el' ∧ draggable el' = true) ∧
        (∀ (ref : nat) (el' : Sortable), children s' !! ref = Some el' →
           ∃ (el : Sortable) (i : nat),
             children list4 !! ref = Some el ∧
             descendants el' = descendants el ∧
             sortablesInVisualOrder block_layout (forEach_addedNode list4 [3%nat]).1 !! i
             = Some ref ∧
             style el' !! "order" = Some (toString (Z.of_nat i))).
Proof.
  apply (childListCallback_whole_item block_layout list4 [3%nat]).
  - vm_compute. reflexivity.
  - constructor; [|constructor]. vm_compute. lia.
Defined.

Lemma childListCallback_missing_handle_witness :
  childListCallback block_layout list2_yes [1%nat] = (list2_yes, Throw TypeError).
Proof.
  apply (childListCallback_missing_handle block_layout list2_yes 1 li []).
  - vm_compute. reflexivity.
  - vm_compute. reflexivity.
  - reflexivity.
  - vm_compute. reflexivity.
Defined.


Lemma previewNewPositions_throws_witness :
  (previewNewPositions list4_dragging 7).2 = Throw TypeError.
Proof.
  apply (previewNewPositions_throws list4_dragging 2 7).
  - vm_compute. reflexivity.
  - rewrite list4_dragging_length. lia.
  - rewrite list4_dragging_length. lia.
Defined.

Lemma gesture_off_item_is_ignored_witness :
  (∀ e_move, handleDragover (handleDragstart block_layout list4 (drag_at 0 0)) e_move
             = (handleDragstart block_layout list4 (drag_at 0 0), e_move, Normal)) ∧
  forEach_handleDragover (handleDragstart block_layout list4 (drag_at 0 0)) [drag_at 5 5]
  = (handleDragstart block_layout list4 (drag_at 0 0), Normal) ∧
  handleDragend block_layout (handleDragstart block_layout list4 (drag_at 0 0)) (drag_at 5 5)
  = handleDragstart block_layout list4 (drag_at 0 0) ∧
  children (handleDragstart block_layout list4 (drag_at 0 0)) = children list4 ∧
  dispatched (handleDragstart block_layout list4 (drag_at 0 0)) = dispatched list4.
Proof.
  apply (gesture_off_item_is_ignored block_layout list4 (drag_at 0 0)
           [drag_at 5 5] (drag_at 5 5)).
  reflexivity.
Defined.

Lemma gesture_dispatches_one_sort_witness :
  ∃ (s1 : ManualSort) (payload : list nat),
    forEach_handleDragover (handleDragstart block_layout list4 (drag_of 2))
      [drag_at 5 5; drag_at 5 25]
    = (s1, Normal) ∧
    dispatched s1 = dispatched list4 ∧
    dispatched (handleDragend block_layout s1 (drag_at 5 25))
    = dispatched list4 ++ [mkCustomEvent "sort" payload] ∧
    Permutation (seq 0 (length (children list4))) payload.
Proof.
  apply (gesture_dispatches_one_sort block_layout list4 (drag_of 2) 2
           [drag_at 5 5; drag_at 5 25] (drag_at 5 25)).
  - reflexivity.
  - vm_compute. lia.
Defined.

Lemma handleDragstart_index_witness :
  (handleDragstart_event block_layout list4_handles dragstart_on_handle).2 = Normal ∧
  ∃ d : nat,
    draggingItemIndex (handleDragstart_event block_layout list4_handles dragstart_on_handle).1
    = Some (Z.of_nat d) ∧
    sortablesInVisualOrder block_layout list4_handles !! d = Some 2%nat ∧
    sortablesAndBounds (handleDragstart_event block_layout list4_handles dragstart_on_handle).1
      !! d
    = Some (mkBoundsAndChild (block_layout (children list4_handles) 2) 2).
Proof.
  apply (handleDragstart_index block_layout list4_handles dragstart_on_handle).
  - discriminate.
  - reflexivity.
  - vm_compute. reflexivity.
  - vm_compute. lia.
Defined.
